(** * Kudryavtsev's analytical permafrost model (TTOP and ALT)

    A shallow embedding of the notebook [Kudryavtsev_permafrost_model.ipynb]:
    a straight-line script of floating-point formulas with one conditional.

    Numbers.  A double is modelled by [float64]: a real number, one of the
    two infinities, or NaN.  Arithmetic follows IEEE-754 as numpy applies it
    (an undefined operation yields NaN, NaN propagates, a comparison with NaN
    is false), with two idealisations: finite results are exact reals (no
    rounding, no overflow), and zero carries no sign, so that a non-zero
    finite number divided by zero takes the sign of its numerator.

    Errors.  A division of two plain Python floats raises
    [ZeroDivisionError] when the divisor is zero; a division in which a
    numpy scalar takes part never raises.  The script is therefore embedded
    in a small error monad. *)

From Stdlib Require Import Reals Lra Lia Psatz ZArith Bool.

Open Scope R_scope.

(** ** Floating-point values *)

Inductive float64 : Type :=
| Fin (r : R)
| PInf
| NInf
| NaN.

Definition Rleb (a b : R) : bool := if Rle_dec a b then true else false.
Definition Rltb (a b : R) : bool := if Rlt_dec a b then true else false.
Definition Reqb (a b : R) : bool := if Req_dec_T a b then true else false.

Definition fneg (x : float64) : float64 :=
  match x with
  | Fin a => Fin (- a)
  | PInf => NInf
  | NInf => PInf
  | NaN => NaN
  end.

Definition fabs (x : float64) : float64 :=
  match x with
  | Fin a => Fin (Rabs a)
  | PInf | NInf => PInf
  | NaN => NaN
  end.

Definition fadd (x y : float64) : float64 :=
  match x, y with
  | NaN, _ | _, NaN => NaN
  | Fin a, Fin b => Fin (a + b)
  | PInf, NInf | NInf, PInf => NaN
  | PInf, _ | _, PInf => PInf
  | NInf, _ | _, NInf => NInf
  end.

Definition fsub (x y : float64) : float64 := fadd x (fneg y).

(** An infinity times a finite number: NaN for zero, else the sign rule. *)
Definition inf_times (positive : bool) (a : R) : float64 :=
  if Reqb a 0 then NaN
  else if xorb positive (Rltb a 0) then PInf else NInf.

Definition fmul (x y : float64) : float64 :=
  match x, y with
  | NaN, _ | _, NaN => NaN
  | Fin a, Fin b => Fin (a * b)
  | PInf, Fin b | Fin b, PInf => inf_times true b
  | NInf, Fin b | Fin b, NInf => inf_times false b
  | PInf, PInf | NInf, NInf => PInf
  | PInf, NInf | NInf, PInf => NInf
  end.

(** numpy division: never raises. *)
Definition fdiv (x y : float64) : float64 :=
  match x, y with
  | NaN, _ | _, NaN => NaN
  | Fin a, Fin b =>
      if Reqb b 0 then
        (if Reqb a 0 then NaN else if Rltb a 0 then NInf else PInf)
      else Fin (a / b)
  | Fin _, PInf | Fin _, NInf => Fin 0
  | PInf, Fin b => if Rltb b 0 then NInf else PInf
  | NInf, Fin b => if Rltb b 0 then PInf else NInf
  | PInf, PInf | PInf, NInf | NInf, PInf | NInf, NInf => NaN
  end.

(** [np.sqrt], [np.log], [np.exp], [np.cos], [np.arcsin] *)
Definition fsqrt (x : float64) : float64 :=
  match x with
  | Fin a => if Rltb a 0 then NaN else Fin (sqrt a)
  | PInf => PInf
  | NInf | NaN => NaN
  end.

Definition flog (x : float64) : float64 :=
  match x with
  | Fin a => if Rltb a 0 then NaN else if Reqb a 0 then NInf else Fin (ln a)
  | PInf => PInf
  | NInf | NaN => NaN
  end.

Definition fexp (x : float64) : float64 :=
  match x with
  | Fin a => Fin (exp a)
  | PInf => PInf
  | NInf => Fin 0
  | NaN => NaN
  end.

Definition fcos (x : float64) : float64 :=
  match x with
  | Fin a => Fin (cos a)
  | PInf | NInf | NaN => NaN
  end.

Definition farcsin (x : float64) : float64 :=
  match x with
  | Fin a => if Rleb (-1) a && Rleb a 1 then Fin (asin a) else NaN
  | PInf | NInf | NaN => NaN
  end.

(** [x ** 2.]: a power with the integral exponent 2.0 is the square, also
    for a negative base. *)
Definition fpow2 (x : float64) : float64 := fmul x x.

(** [c ** p] for a positive literal [c] and a finite exponent. *)
Definition fpow (c p : R) : float64 := Fin (Rpower c p).

(** [x <= y]: false as soon as one side is NaN. *)
Definition fle (x y : float64) : bool :=
  match x, y with
  | NaN, _ | _, NaN => false
  | Fin a, Fin b => Rleb a b
  | NInf, _ | _, PInf => true
  | _, _ => false
  end.



(** ** Exceptions *)

Inductive exn : Type := ZeroDivisionError.

Inductive result (A : Type) : Type :=
| Ok (a : A)
| Raise (e : exn).
Arguments Ok {A} a.
Arguments Raise {A} e.

Definition bind {A B : Type} (m : result A) (k : A -> result B) : result B :=
  match m with
  | Ok a => k a
  | Raise e => Raise e
  end.

Notation "x <- m ;; k" := (bind m (fun x => k))
  (at level 61, m at next level, right associativity).

(** Division of two Python floats. *)
Definition pydiv (x y : float64) : result float64 :=
  match y with
  | Fin b => if Reqb b 0 then Raise ZeroDivisionError else Ok (fdiv x y)
  | _ => Ok (fdiv x y)
  end.

Declare Scope fl_scope.
Delimit Scope fl_scope with fl.
Bind Scope fl_scope with float64.
Infix "+" := fadd : fl_scope.
Infix "-" := fsub : fl_scope.
Infix "*" := fmul : fl_scope.
Infix "/" := fdiv : fl_scope.
Notation "- x" := (fneg x) : fl_scope.
Notation "# r" := (Fin r) (at level 5, r at level 1, format "# r").

(** ** The script *)

(** Site inputs: the assignments at the top of the notebook that the model
    treats as configuration. *)
Record site : Type := {
  rho_sn : R;
  Hvg1 : R;
  Hvg2 : R;
  Dvf : R;
  Dvt : R;
  Ta : R;
  Aa : R;
  Hsn : R;
  W_vol : R;
  percent_silt : R;
  percent_sand : R;
  percent_clay : R
}.

(** Per-class constants (literals of the notebook). *)
Definition Bulk_Density_Silt : R := 1400.
Definition Heat_Capacity_Silt : R := 730.
Definition Bulk_Density_Sand : R := 1300.
Definition Heat_Capacity_Sand : R := 690.
Definition Bulk_Density_Clay : R := 1500.
Definition Heat_Capacity_Clay : R := 900.

(** Wet soils, then the mean with the dry values; the notebook overwrites
    the wet value with the mean. *)
Definition Kf_Silt : R := (1.25 + 2.40) / 2.
Definition Kt_Silt : R := (1.05 + 1.90) / 2.
Definition Kf_Sand : R := (1.25 + 2.65) / 2.
Definition Kt_Sand : R := (1.05 + 2.15) / 2.
Definition Kf_Clay : R := (1.15 + 2.00) / 2.
Definition Kt_Clay : R := (0.90 + 1.70) / 2.

Definition tao : R := 365 * 24 * 3600.

Local Open Scope fl_scope.

(** *** Soil properties (texture mixing; Anisimov et al. 1997) *)

Record soil : Type := {
  Heat_Capacity : float64;
  Bulk_Density : float64;
  Ct : float64;
  Cf : float64;
  Kt : float64;
  Kf : float64;
  Ksn : float64;
  Csn : float64;
  tao1 : float64;
  tao2 : float64;
  L : float64
}.

(** Snow conductivity and heat capacity, estimated from the snow density. *)
Definition Ksn_of (rho_sn : R) : float64 :=
  (#rho_sn / #1000) * (#rho_sn / #1000) * #3.233
  - #1.01 * (#rho_sn / #1000) + #0.138.

Definition Csn_of (rho_sn : R) : float64 := #rho_sn * #2.09E3.

Definition soil_properties (i : site) : result soil :=
  let Heat_Capacity :=
    fpow Heat_Capacity_Clay (percent_clay i)
    * fpow Heat_Capacity_Sand (percent_sand i)
    * fpow Heat_Capacity_Silt (percent_silt i) in
  let Bulk_Density :=
    fpow Bulk_Density_Clay (percent_clay i)
    * fpow Bulk_Density_Sand (percent_sand i)
    * fpow Bulk_Density_Silt (percent_silt i) in
  let Ct := Heat_Capacity * Bulk_Density + #4190 * #(W_vol i) in
  let Cf := Heat_Capacity * Bulk_Density + #2025 * #(W_vol i) in
  let Kt :=
    fpow Kt_Silt (percent_silt i) * fpow Kt_Clay (percent_clay i)
    * fpow Kt_Sand (percent_sand i) in
  let Kf :=
    fpow Kf_Silt (percent_silt i) * fpow Kf_Clay (percent_clay i)
    * fpow Kf_Sand (percent_sand i) in
  let Ksn := Ksn_of (rho_sn i) in
  let Csn := Csn_of (rho_sn i) in
  r <- pydiv #(Ta i) #(Aa i) ;;
  let tao1 := #tao * (#0.5 - #1 / #PI * farcsin r) in
  let tao2 := #tao - tao1 in
  let L := #3.35E8 * #(W_vol i) * #1 in
  Ok {| Heat_Capacity := Heat_Capacity; Bulk_Density := Bulk_Density;
        Ct := Ct; Cf := Cf; Kt := Kt; Kf := Kf; Ksn := Ksn; Csn := Csn;
        tao1 := tao1; tao2 := tao2; L := L |}.

(** *** Snow effect *)

Record snow : Type := {
  alpha : float64;
  beta : float64;
  Cef : float64;
  mu : float64;
  s : float64;
  deta_A : float64;
  deta_Asn : float64;
  deta_Tsn : float64
}.

Definition snow_effect (i : site) (p : soil) : result snow :=
  alpha <- pydiv (#2 * #(Aa i) * Cf p) (L p) ;;
  beta <- pydiv (#2 * fabs #(Ta i) * Cf p) (L p) ;;
  q <- pydiv (alpha + #1) (beta + #1) ;;
  let Cef := Cf p * ((alpha - beta) / ((alpha - beta) - flog q)) in
  let mu :=
    (fsqrt (Ksn p * Csn p) - fsqrt (Kf p * Cef))
    / (fsqrt (Ksn p * Csn p) + fsqrt (Kf p * Cef)) in
  (* the quotient [np.pi*Csn/(tao*Ksn)] occurs three times in [s] *)
  d <- pydiv (#PI * Csn p) (#tao * Ksn p) ;;
  let s :=
    fexp (#2 * #(Hsn i) * fsqrt d)
    + #2 * mu * fcos (#2 * #(Hsn i) * fsqrt d)
    + fpow2 mu * fexp (#(-2) * #(Hsn i) * fsqrt d) in
  let deta_A := #(Aa i) * (#1 - (#1 + mu) / fsqrt s) in
  let deta_Asn := deta_A * tao1 p / #tao * #0.5 in
  let deta_Tsn := #2 / #PI * deta_Asn in
  Ok {| alpha := alpha; beta := beta; Cef := Cef; mu := mu; s := s;
        deta_A := deta_A; deta_Asn := deta_Asn; deta_Tsn := deta_Tsn |}.

(** *** Vegetation effect *)

Record vegetation : Type := {
  Tvg : float64;
  Avg : float64;
  deta_A1 : float64;
  deta_A2 : float64;
  deta_Av : float64;
  deta_Tv : float64;
  Tgs : float64;
  Ags : float64
}.

(** The insulation factor of a vegetation layer of height [H] and
    diffusivity [D] over a season of length [t]:
    [1.-np.exp(-1.*H*np.sqrt(np.pi/(D*2.*t)))]. *)
Definition veg_factor (H D : R) (t : float64) : float64 :=
  #1 - fexp (#(-1) * #H * fsqrt (#PI / (#D * #2 * t))).

Definition vegetation_effect (i : site) (p : soil) (w : snow) : vegetation :=
  let Tvg := #(Ta i) + deta_Tsn w in
  let Avg := #(Aa i) - deta_Asn w in
  let deta_A1 := (Avg - fabs Tvg) * veg_factor (Hvg1 i) (Dvf i) (tao1 p) in
  let deta_A2 :=
    (#(Aa i) - fabs #(Ta i)) * veg_factor (Hvg2 i) (Dvt i) (tao2 p) in
  let deta_Av := (deta_A1 * tao1 p + deta_A2 * tao2 p) / #tao in
  let deta_Tv :=
    (deta_A1 * tao1 p - deta_A2 * tao2 p) / #tao * (#2 / #PI) in
  let Tgs := Tvg + deta_Tv in
  let Ags := Avg - deta_Av in
  {| Tvg := Tvg; Avg := Avg; deta_A1 := deta_A1; deta_A2 := deta_A2;
     deta_Av := deta_Av; deta_Tv := deta_Tv; Tgs := Tgs; Ags := Ags |}.

(** *** TTOP and ALT *)

Definition Frozen : Z := (-1)%Z.
Definition Thawed : Z := 1%Z.

Record solution : Type := {
  Tps_numerator : float64;
  K_star : float64;
  C : float64;
  K : float64;
  Flag : Z;
  Tps : float64;
  Aps : float64;
  Zc : float64;
  Zal : float64
}.

Definition Tps_numerator_of (Tgs Ags Kf Kt : float64) : float64 :=
  #0.5 * Tgs * (Kf + Kt)
  + (Ags * (Kt - Kf) / #PI
     * (Tgs / Ags * farcsin (Tgs / Ags)
        + fsqrt (#1 - (#PI * #PI / (Ags * Ags))))).

(** The conditional of the script: the constants and the flag it assigns. *)
Definition regime (Tps_numerator Kf Kt Cf Ct : float64)
  : float64 * float64 * float64 * Z :=
  if fle Tps_numerator #0 then (Kf, Cf, Kf, Frozen)
  else (Kt, Ct, Kt, Thawed).

(** The formulas after the conditional. *)
Definition closed_form (Ags Tps_numerator K_star C K L : float64) (Flag : Z)
  : result solution :=
  let Tps := Tps_numerator / K_star in
  (* [L/(2.*C)] occurs three times in [Aps] *)
  h <- pydiv L (#2 * C) ;;
  let Aps :=
    ((Ags - fabs Tps) / flog ((Ags + h) / (fabs Tps + h))) - h in
  let Zc :=
    (#2 * (Ags - fabs Tps) * fsqrt ((K * #tao * C) / #PI))
    / (#2 * Aps * C + L) in
  (* [K*tao/(np.pi*C)] occurs twice in [Zal] *)
  e <- pydiv (K * #tao) (#PI * C) ;;
  let Zal :=
    (#2 * (Ags - fabs Tps) * fsqrt (K * #tao * C / #PI)
     + (((#2 * Aps * C * Zc + L * Zc) * L * fsqrt e)
        / (#2 * Ags * C * Zc + L * Zc + (#2 * Aps * C + L) * fsqrt e)))
    / (#2 * Aps * C + L) in
  Ok {| Tps_numerator := Tps_numerator; K_star := K_star; C := C; K := K;
        Flag := Flag; Tps := Tps; Aps := Aps; Zc := Zc; Zal := Zal |}.

Definition solver (Tgs Ags Kf Kt Cf Ct L : float64) : result solution :=
  let Tps_numerator := Tps_numerator_of Tgs Ags Kf Kt in
  let '(K_star, C, K, Flag) := regime Tps_numerator Kf Kt Cf Ct in
  closed_form Ags Tps_numerator K_star C K L Flag.

(** *** The whole notebook *)

Record output : Type := {
  out_soil : soil;
  out_snow : snow;
  out_veg : vegetation;
  out_sol : solution
}.

Definition permafrost_model (i : site) : result output :=
  p <- soil_properties i ;;
  w <- snow_effect i p ;;
  let v := vegetation_effect i p w in
  x <- solver (Tgs v) (Ags v) (Kf p) (Kt p) (Cf p) (Ct p) (L p) ;;
  Ok {| out_soil := p; out_snow := w; out_veg := v; out_sol := x |}.

Local Close Scope fl_scope.

(** ** Auxiliary definitions

    Real-valued readings of the script, the sites used below and the
    partial sums used to enclose the exponential. *)

Local Open Scope R_scope.

(** Partial sums of the exponential series. *)
Fixpoint exp_term (n : nat) (x : R) : R :=
  match n with
  | O => 1
  | S m => exp_term m x * x / INR (S m)
  end.

Fixpoint exp_poly (n : nat) (x : R) : R :=
  match n with
  | O => 1
  | S m => exp_poly m x + exp_term (S m) x
  end.

Definition Heat_Capacity_R (i : site) : R :=
  Rpower Heat_Capacity_Clay (percent_clay i)
  * Rpower Heat_Capacity_Sand (percent_sand i)
  * Rpower Heat_Capacity_Silt (percent_silt i).

Definition Bulk_Density_R (i : site) : R :=
  Rpower Bulk_Density_Clay (percent_clay i)
  * Rpower Bulk_Density_Sand (percent_sand i)
  * Rpower Bulk_Density_Silt (percent_silt i).

Definition Ct_R (i : site) : R :=
  Heat_Capacity_R i * Bulk_Density_R i + 4190 * W_vol i.

Definition Cf_R (i : site) : R :=
  Heat_Capacity_R i * Bulk_Density_R i + 2025 * W_vol i.

Definition Kt_R (i : site) : R :=
  Rpower Kt_Silt (percent_silt i) * Rpower Kt_Clay (percent_clay i)
  * Rpower Kt_Sand (percent_sand i).

Definition Kf_R (i : site) : R :=
  Rpower Kf_Silt (percent_silt i) * Rpower Kf_Clay (percent_clay i)
  * Rpower Kf_Sand (percent_sand i).

Definition Ksn_R (i : site) : R :=
  rho_sn i / 1000 * (rho_sn i / 1000) * 3.233 - 1.01 * (rho_sn i / 1000)
  + 0.138.

Definition Csn_R (i : site) : R := rho_sn i * 2.09E3.

Definition tao1_R (i : site) : R :=
  tao * (0.5 - 1 / PI * asin (Ta i / Aa i)).

Definition tao2_R (i : site) : R := tao - tao1_R i.

Definition L_R (i : site) : R := 3.35E8 * W_vol i * 1.

Definition soil_R (i : site) : soil :=
  {| Heat_Capacity := Fin (Heat_Capacity_R i);
     Bulk_Density := Fin (Bulk_Density_R i);
     Ct := Fin (Ct_R i); Cf := Fin (Cf_R i);
     Kt := Fin (Kt_R i); Kf := Fin (Kf_R i);
     Ksn := Fin (Ksn_R i); Csn := Fin (Csn_R i);
     tao1 := Fin (tao1_R i); tao2 := Fin (tao2_R i);
     L := Fin (L_R i) |}.

Definition alpha_R (i : site) : R := 2 * Aa i * Cf_R i / L_R i.

Definition beta_R (i : site) : R := 2 * Rabs (Ta i) * Cf_R i / L_R i.

Definition Cef_R (i : site) : R :=
  Cf_R i
  * ((alpha_R i - beta_R i)
     / ((alpha_R i - beta_R i) - ln ((alpha_R i + 1) / (beta_R i + 1)))).

Definition mu_R (i : site) : R :=
  (sqrt (Ksn_R i * Csn_R i) - sqrt (Kf_R i * Cef_R i))
  / (sqrt (Ksn_R i * Csn_R i) + sqrt (Kf_R i * Cef_R i)).

(** The argument of the exponentials and of the cosine in [s]. *)
Definition snow_arg (i : site) : R :=
  2 * Hsn i * sqrt (PI * Csn_R i / (tao * Ksn_R i)).

(** [s] as a function of that argument and of the reflection coefficient. *)
Definition s_fun (m x : R) : R :=
  exp x + 2 * m * cos x + m * m * exp (- x).

Definition s_R (i : site) : R :=
  exp (2 * Hsn i * sqrt (PI * Csn_R i / (tao * Ksn_R i)))
  + 2 * mu_R i * cos (2 * Hsn i * sqrt (PI * Csn_R i / (tao * Ksn_R i)))
  + mu_R i * mu_R i
    * exp (-2 * Hsn i * sqrt (PI * Csn_R i / (tao * Ksn_R i))).

Definition deta_A_R (i : site) : R :=
  Aa i * (1 - (1 + mu_R i) / sqrt (s_R i)).

Definition deta_Asn_R (i : site) : R := deta_A_R i * tao1_R i / tao * 0.5.

Definition deta_Tsn_R (i : site) : R := 2 / PI * deta_Asn_R i.

Definition snow_R (i : site) : snow :=
  {| alpha := Fin (alpha_R i); beta := Fin (beta_R i);
     Cef := Fin (Cef_R i); mu := Fin (mu_R i); s := Fin (s_R i);
     deta_A := Fin (deta_A_R i); deta_Asn := Fin (deta_Asn_R i);
     deta_Tsn := Fin (deta_Tsn_R i) |}.

Definition Tvg_R (i : site) : R := Ta i + deta_Tsn_R i.

Definition Avg_R (i : site) : R := Aa i - deta_Asn_R i.

Definition veg_factor_R (H D t : R) : R :=
  1 - exp (-1 * H * sqrt (PI / (D * 2 * t))).

Definition deta_A1_R (i : site) : R :=
  (Avg_R i - Rabs (Tvg_R i)) * veg_factor_R (Hvg1 i) (Dvf i) (tao1_R i).

Definition deta_A2_R (i : site) : R :=
  (Aa i - Rabs (Ta i)) * veg_factor_R (Hvg2 i) (Dvt i) (tao2_R i).

Definition deta_Av_R (i : site) : R :=
  (deta_A1_R i * tao1_R i + deta_A2_R i * tao2_R i) / tao.

Definition deta_Tv_R (i : site) : R :=
  (deta_A1_R i * tao1_R i - deta_A2_R i * tao2_R i) / tao * (2 / PI).

Definition Tgs_R (i : site) : R := Tvg_R i + deta_Tv_R i.

Definition Ags_R (i : site) : R := Avg_R i - deta_Av_R i.

Definition vegetation_R (i : site) : vegetation :=
  {| Tvg := Fin (Tvg_R i); Avg := Fin (Avg_R i);
     deta_A1 := Fin (deta_A1_R i); deta_A2 := Fin (deta_A2_R i);
     deta_Av := Fin (deta_Av_R i); deta_Tv := Fin (deta_Tv_R i);
     Tgs := Fin (Tgs_R i); Ags := Fin (Ags_R i) |}.

(** Physically valid site data. *)
Record valid (i : site) : Prop := {
  valid_rho : 0 < rho_sn i;
  valid_W : 0 < W_vol i;
  valid_Dvf : 0 < Dvf i;
  valid_Dvt : 0 < Dvt i;
  valid_T : Rabs (Ta i) < Aa i;
  valid_Hsn : 0 <= Hsn i;
  valid_Hvg1 : 0 <= Hvg1 i;
  valid_Hvg2 : 0 <= Hvg2 i
}.

Definition Aps_R (a T h : R) : R := (a - T) / ln ((a + h) / (T + h)) - h.

Definition Zc_R (a T k c l aps : R) : R :=
  2 * (a - T) * sqrt (k * tao * c / PI) / (2 * aps * c + l).

Definition Zal_R (a T k c l aps zc : R) : R :=
  (2 * (a - T) * sqrt (k * tao * c / PI)
   + (2 * aps * c * zc + l * zc) * l * sqrt (k * tao / (PI * c))
     / (2 * a * c * zc + l * zc
        + (2 * aps * c + l) * sqrt (k * tao / (PI * c))))
  / (2 * aps * c + l).

Definition Tps_numerator_R (t a kf kt : R) : R :=
  0.5 * t * (kf + kt)
  + a * (kt - kf) / PI
    * (t / a * asin (t / a) + sqrt (1 - PI * PI / (a * a))).

Definition set_Hsn (i : site) (h : R) : site :=
  {| rho_sn := rho_sn i; Hvg1 := Hvg1 i; Hvg2 := Hvg2 i; Dvf := Dvf i;
     Dvt := Dvt i; Ta := Ta i; Aa := Aa i; Hsn := h; W_vol := W_vol i;
     percent_silt := percent_silt i; percent_sand := percent_sand i;
     percent_clay := percent_clay i |}.

(** The site of the notebook: Barrow, Alaska, 2012. *)
Definition Barrow : site :=
  {| rho_sn := 240; Hvg1 := 0; Hvg2 := 0; Dvf := 1.39E-6; Dvt := 5.56E-8;
     Ta := -10.81; Aa := 19.04; Hsn := 0.28; W_vol := 0.41;
     percent_silt := 0.30; percent_sand := 0.60; percent_clay := 0.10 |}.


(** A site with snow and summer vegetation. *)
Definition tundra : site :=
  {| rho_sn := 240; Hvg1 := 0; Hvg2 := 0.2; Dvf := 1.39E-6; Dvt := 5.56E-8;
     Ta := -10.81; Aa := 19.04; Hsn := 0.28; W_vol := 0.41;
     percent_silt := 0.30; percent_sand := 0.60; percent_clay := 0.10 |}.

(** The quantities of the solver at the reference site. *)
Definition Tps_num_B : R :=
  Tps_numerator_R (Tgs_R Barrow) (Ags_R Barrow) (Kf_R Barrow) (Kt_R Barrow).

Definition T_B : R := Rabs (Tps_num_B / Kf_R Barrow).

Definition h_B : R := L_R Barrow / (2 * Cf_R Barrow).

Definition Aps_B : R := Aps_R (Ags_R Barrow) T_B h_B.

Definition Zc_B : R :=
  Zc_R (Ags_R Barrow) T_B (Kf_R Barrow) (Cf_R Barrow) (L_R Barrow) Aps_B.

Definition Zal_B : R :=
  Zal_R (Ags_R Barrow) T_B (Kf_R Barrow) (Cf_R Barrow) (L_R Barrow) Aps_B Zc_B.

(** The reference site with a colder mean air temperature. *)
Definition cold_site : site :=
  {| rho_sn := 240; Hvg1 := 0; Hvg2 := 0; Dvf := 1.39E-6; Dvt := 5.56E-8;
     Ta := -19; Aa := 19.04; Hsn := 0.28; W_vol := 0.41;
     percent_silt := 0.30; percent_sand := 0.60; percent_clay := 0.10 |}.


(** A site whose air temperature stays below zero all year. *)
Definition polar_night : site :=
  {| rho_sn := 240; Hvg1 := 0; Hvg2 := 0; Dvf := 1.39E-6; Dvt := 5.56E-8;
     Ta := -20; Aa := 15; Hsn := 0.28; W_vol := 0.41;
     percent_silt := 0.30; percent_sand := 0.60; percent_clay := 0.10 |}.



(** ** Elementary facts about the number model *)

Lemma Reqb_true (a b : R) : a = b -> Reqb a b = true.
Proof. intros H. unfold Reqb. destruct (Req_dec_T a b); [reflexivity | contradiction]. Qed.

Lemma Reqb_false (a b : R) : a <> b -> Reqb a b = false.
Proof. intros H. unfold Reqb. destruct (Req_dec_T a b); [contradiction | reflexivity]. Qed.


Lemma Rltb_false (a b : R) : b <= a -> Rltb a b = false.
Proof. intros H. unfold Rltb. destruct (Rlt_dec a b); [lra | reflexivity]. Qed.

Lemma Rleb_true (a b : R) : a <= b -> Rleb a b = true.
Proof. intros H. unfold Rleb. destruct (Rle_dec a b); [reflexivity | contradiction]. Qed.

Lemma Rleb_false (a b : R) : b < a -> Rleb a b = false.
Proof. intros H. unfold Rleb. destruct (Rle_dec a b); [lra | reflexivity]. Qed.

Lemma Rleb_spec (a b : R) : Rleb a b = true <-> a <= b.
Proof. unfold Rleb. destruct (Rle_dec a b); split; intros; try assumption; try reflexivity; try discriminate; contradiction. Qed.


Lemma Reqb_spec (a b : R) : Reqb a b = true <-> a = b.
Proof. unfold Reqb. destruct (Req_dec_T a b); split; intros; try assumption; try reflexivity; try discriminate; contradiction. Qed.

(** NaN is absorbing. *)
Lemma fadd_NaN_r x : fadd x NaN = NaN.
Proof. destruct x; reflexivity. Qed.
Lemma fadd_NaN_l x : fadd NaN x = NaN.
Proof. reflexivity. Qed.
Lemma fsub_NaN_r x : fsub x NaN = NaN.
Proof. destruct x; reflexivity. Qed.
Lemma fsub_NaN_l x : fsub NaN x = NaN.
Proof. reflexivity. Qed.
Lemma fmul_NaN_r x : fmul x NaN = NaN.
Proof. destruct x; reflexivity. Qed.
Lemma fmul_NaN_l x : fmul NaN x = NaN.
Proof. reflexivity. Qed.
Lemma fdiv_NaN_r x : fdiv x NaN = NaN.
Proof. destruct x; reflexivity. Qed.
Lemma fdiv_NaN_l x : fdiv NaN x = NaN.
Proof. reflexivity. Qed.

Create Rewrite HintDb nan.
#[export] Hint Rewrite fadd_NaN_r fadd_NaN_l fsub_NaN_r fsub_NaN_l
  fmul_NaN_r fmul_NaN_l fdiv_NaN_r fdiv_NaN_l : nan.

(** Operations on finite values with a defined result. *)
Lemma fdiv_Fin (a b : R) : b <> 0 -> fdiv (Fin a) (Fin b) = Fin (a / b).
Proof. intros H. simpl. rewrite (Reqb_false _ _ H). reflexivity. Qed.

Lemma fsqrt_Fin (a : R) : 0 <= a -> fsqrt (Fin a) = Fin (sqrt a).
Proof. intros H. simpl. rewrite (Rltb_false _ _ H). reflexivity. Qed.


Lemma flog_Fin (a : R) : 0 < a -> flog (Fin a) = Fin (ln a).
Proof.
  intros H. simpl. rewrite Rltb_false by lra. rewrite Reqb_false by lra.
  reflexivity.
Qed.

Lemma farcsin_Fin (a : R) : -1 <= a <= 1 -> farcsin (Fin a) = Fin (asin a).
Proof.
  intros [H1 H2]. simpl. rewrite (Rleb_true _ _ H1), (Rleb_true _ _ H2).
  reflexivity.
Qed.

Lemma farcsin_out (a : R) : 1 < Rabs a -> farcsin (Fin a) = NaN.
Proof.
  intros H. simpl. unfold Rabs in H. destruct (Rcase_abs a).
  - rewrite Rleb_false by lra. reflexivity.
  - rewrite (Rleb_false a 1) by lra. rewrite andb_false_r. reflexivity.
Qed.

Lemma pydiv_Fin (x : float64) (b : R) : b <> 0 -> pydiv x (Fin b) = Ok (fdiv x (Fin b)).
Proof. intros H. simpl. rewrite (Reqb_false _ _ H). reflexivity. Qed.


Lemma pydiv_raise (x y : float64) e : pydiv x y = Raise e -> y = Fin 0.
Proof.
  destruct y; simpl; try discriminate.
  destruct (Reqb r 0) eqn:E; try discriminate.
  apply Reqb_spec in E. now subst.
Qed.

Lemma pydiv_ok (x y z : float64) : pydiv x y = Ok z -> z = fdiv x y /\ y <> Fin 0.
Proof.
  destruct y; simpl; try (intros [= <-]; split; [reflexivity | discriminate]).
  destruct (Reqb r 0) eqn:E; try discriminate.
  intros [= <-]. split; [reflexivity |].
  intros [= ->]. rewrite Reqb_true in E; [discriminate | reflexivity].
Qed.

Lemma tao_pos : 0 < tao.
Proof. unfold tao. lra. Qed.

Lemma PI_bounds : 3.14159265 < PI < 3.14159266.
Proof.
  pose proof (PI_2_3_7_ineq 4) as [Hlo Hhi].
  unfold sum_f_R0, tg_alt, PI_2_3_7_tg, Ratan_seq in Hlo, Hhi.
  cbn [Nat.mul Nat.add] in Hlo, Hhi.
  simpl INR in Hlo, Hhi. simpl pow in Hlo, Hhi.
  split; lra.
Qed.

(** ** Enclosures of the elementary functions *)

Lemma exp_term_pow (n : nat) (x : R) : exp_term n x = x ^ n / INR (fact n).
Proof.
  induction n as [| n IH].
  - simpl. field.
  - cbn [exp_term]. rewrite IH. rewrite fact_simpl, mult_INR.
    pose proof (INR_fact_neq_0 n). pose proof (not_0_INR (S n)).
    simpl pow. field. split; auto.
Qed.

Lemma exp_term_derivable (n : nat) (x : R) :
  derivable_pt_lim (exp_term (S n)) x (exp_term n x).
Proof.
  assert (E : forall y, exp_term (S n) y = / INR (fact (S n)) * y ^ S n).
  { intros y. rewrite exp_term_pow. unfold Rdiv. ring. }
  assert (D : derivable_pt_lim (fun y => / INR (fact (S n)) * y ^ S n) x
                (/ INR (fact (S n)) * (INR (S n) * x ^ pred (S n)))).
  { apply (derivable_pt_lim_scal (fun y => y ^ S n)).
    apply derivable_pt_lim_pow. }
  replace (exp_term n x) with (/ INR (fact (S n)) * (INR (S n) * x ^ pred (S n))).
  - intros eps Heps. destruct (D eps Heps) as [delta Hd].
    exists delta. intros h Hh Hlt. rewrite !E. apply Hd; assumption.
  - rewrite exp_term_pow, fact_simpl, mult_INR. cbn [pred].
    pose proof (INR_fact_neq_0 n). pose proof (not_0_INR (S n)).
    field. split; auto.
Qed.

Lemma derivable_pt_lim_eq (f g : R -> R) (x l m : R) :
  (forall y, f y = g y) -> l = m ->
  derivable_pt_lim f x l -> derivable_pt_lim g x m.
Proof.
  intros E <- D eps Heps. destruct (D eps Heps) as [delta Hd].
  exists delta. intros h Hh Hlt. rewrite <- !E. apply Hd; assumption.
Qed.

Lemma exp_poly_derivable_gen (n : nat) (x : R) :
  derivable_pt_lim (exp_poly n) x
    (match n with O => 0 | S m => exp_poly m x end).
Proof.
  induction n as [| n IH].
  - apply (derivable_pt_lim_const 1).
  - apply (derivable_pt_lim_eq (exp_poly n + exp_term (S n))%F _ x
             ((match n with O => 0 | S m => exp_poly m x end) + exp_term n x)).
    + intros y. reflexivity.
    + destruct n; simpl; ring.
    + apply derivable_pt_lim_plus; [exact IH | apply exp_term_derivable].
Qed.

Lemma exp_poly_derivable (n : nat) (x : R) :
  derivable_pt_lim (exp_poly (S n)) x (exp_poly n x).
Proof. apply (exp_poly_derivable_gen (S n)). Qed.

Lemma exp_poly_0 (n : nat) : exp_poly n 0 = 1.
Proof.
  induction n as [| n IH]; [reflexivity |].
  cbn [exp_poly exp_term]. rewrite IH. unfold Rdiv. ring.
Qed.

Lemma exp_remainder_derivable (n : nat) (x : R) :
  derivable_pt_lim (fun y => exp y - exp_poly (S n) y) x (exp x - exp_poly n x).
Proof.
  apply (derivable_pt_lim_minus exp (exp_poly (S n))).
  - apply derivable_pt_lim_exp.
  - apply exp_poly_derivable.
Qed.

(** For a non-negative argument every partial sum is a lower bound. *)
Lemma exp_poly_lower (n : nat) (x : R) : 0 <= x -> exp_poly n x <= exp x.
Proof.
  revert x. induction n as [| n IH]; intros x Hx.
  - simpl. pose proof (exp_ineq1_le x). lra.
  - destruct (Rle_lt_or_eq_dec _ _ Hx) as [Hpos | <-].
    + destruct (MVT_cor2 (fun y => exp y - exp_poly (S n) y)
                  (fun y => exp y - exp_poly n y) 0 x Hpos) as (c & Hc & Hc0).
      * intros c _. apply exp_remainder_derivable.
      * rewrite exp_0, exp_poly_0 in Hc.
        assert (exp_poly n c <= exp c) by (apply IH; lra).
        nra.
    + rewrite exp_0, exp_poly_0. lra.
Qed.

(** For a non-positive argument the partial sums alternate around it. *)
Lemma exp_poly_alternate (n : nat) (x : R) :
  x <= 0 ->
  if Nat.even n then exp x <= exp_poly n x else exp_poly n x <= exp x.
Proof.
  revert x. induction n as [| n IH]; intros x Hx.
  - simpl. rewrite <- exp_0.
    destruct (Rle_lt_or_eq_dec _ _ Hx) as [Hneg | ->]; [| lra].
    left. now apply exp_increasing.
  - rewrite Nat.even_succ, <- Nat.negb_even.
    destruct (Rle_lt_or_eq_dec _ _ Hx) as [Hneg | ->].
    + destruct (MVT_cor2 (fun y => exp y - exp_poly (S n) y)
                  (fun y => exp y - exp_poly n y) x 0 Hneg) as (c & Hc & Hc0).
      * intros c _. apply exp_remainder_derivable.
      * rewrite exp_0, exp_poly_0 in Hc.
        assert (Hc' : c <= 0) by lra. specialize (IH c Hc').
        destruct (Nat.even n); cbn [negb]; nra.
    + rewrite exp_0, exp_poly_0. destruct (Nat.even n); cbn [negb]; lra.
Qed.

Lemma exp_lower (n : nat) (q x : R) : 0 <= q -> q <= x -> exp_poly n q <= exp x.
Proof.
  intros Hq Hx. apply Rle_trans with (exp q).
  - now apply exp_poly_lower.
  - destruct (Rle_lt_or_eq_dec _ _ Hx) as [H | ->]; [| lra].
    left. now apply exp_increasing.
Qed.

Lemma exp_upper (n : nat) (q x : R) :
  0 <= q -> x <= q -> Nat.even n = false -> 0 < exp_poly n (- q) ->
  exp x <= / exp_poly n (- q).
Proof.
  intros Hq Hx Hn Hp.
  apply Rle_trans with (exp q).
  - destruct (Rle_lt_or_eq_dec _ _ Hx) as [H | ->]; [| lra].
    left. now apply exp_increasing.
  - assert (Ha : - q <= 0) by lra.
    pose proof (exp_poly_alternate n (- q) Ha) as H. rewrite Hn in H.
    rewrite exp_Ropp in H.
    rewrite <- (Rinv_inv (exp q)).
    apply Rinv_le_contravar; assumption.
Qed.

(** Enclosure of the logarithm through the exponential. *)
Lemma ln_upper (n : nat) (q y : R) :
  0 <= q -> 0 < y -> y <= exp_poly n q -> ln y <= q.
Proof.
  intros Hq Hy H.
  assert (Hle : y <= exp q) by (pose proof (exp_poly_lower n q Hq); lra).
  destruct (Rle_lt_or_eq_dec _ _ Hle) as [Hlt | ->].
  - left. rewrite <- (ln_exp q). apply ln_increasing; assumption.
  - rewrite ln_exp. lra.
Qed.

Lemma ln_lower (n : nat) (q y : R) :
  0 <= q -> Nat.even n = false -> 0 < exp_poly n (- q) ->
  / exp_poly n (- q) <= y -> q <= ln y.
Proof.
  intros Hq Hn Hp H.
  assert (Hle : exp q <= y).
  { apply Rle_trans with (/ exp_poly n (- q)); [| exact H].
    apply (exp_upper n q q); try assumption. lra. }
  pose proof (exp_pos q).
  destruct (Rle_lt_or_eq_dec _ _ Hle) as [Hlt | <-].
  - left. rewrite <- (ln_exp q) at 1. apply ln_increasing; assumption.
  - rewrite ln_exp. lra.
Qed.

(** Square roots. *)
Lemma sqrt_enclosure (x lo hi : R) :
  0 <= lo -> 0 <= hi -> lo * lo <= x -> x <= hi * hi -> lo <= sqrt x <= hi.
Proof.
  intros Hlo Hhi H1 H2. split.
  - rewrite <- (sqrt_square lo) by exact Hlo. apply sqrt_le_1_alt, H1.
  - rewrite <- (sqrt_square hi) by exact Hhi. apply sqrt_le_1_alt, H2.
Qed.

(** Tenth roots and their powers: the texture exponents are tenths. *)
Lemma Rpower_tenths (c : R) (n : nat) :
  0 < c -> Rpower c (INR n / 10) = Rpower c (/ 10) ^ n.
Proof.
  intros Hc. rewrite <- Rpower_pow by (unfold Rpower; apply exp_pos).
  rewrite Rpower_mult. f_equal. unfold Rdiv. ring.
Qed.

Lemma tenth_root_enclosure (c lo hi : R) :
  0 < lo -> 0 < hi -> lo ^ 10 <= c -> c <= hi ^ 10 ->
  lo <= Rpower c (/ 10) <= hi.
Proof.
  intros Hlo Hhi H1 H2.
  assert (Hc : 0 < c).
  { apply Rlt_le_trans with (lo ^ 10); [apply pow_lt, Hlo | exact H1]. }
  assert (E : forall z, 0 < z -> Rpower (z ^ 10) (/ 10) = z).
  { intros z Hz. rewrite <- (Rpower_pow 10 z Hz). rewrite Rpower_mult.
    replace (INR 10 * / 10) with 1 by (simpl; lra). now apply Rpower_1. }
  split.
  - rewrite <- (E lo Hlo). apply Rle_Rpower_l; [lra |].
    split; [apply pow_lt, Hlo | exact H1].
  - rewrite <- (E hi Hhi). apply Rle_Rpower_l; [lra |].
    split; [exact Hc | exact H2].
Qed.

(** Products of enclosed quantities, by the signs of the factors. *)
Lemma mul_pp (x y a b c d : R) :
  0 <= a -> a <= x <= b -> 0 <= c -> c <= y <= d ->
  a * c <= x * y <= b * d.
Proof. intros Ha [H1 H2] Hc [H3 H4]. split; nra. Qed.

Lemma mul_np (x y a b c d : R) :
  b <= 0 -> a <= x <= b -> 0 <= c -> c <= y <= d ->
  a * d <= x * y <= b * c.
Proof. intros Hb [H1 H2] Hc [H3 H4]. split; nra. Qed.

Lemma mul_nn (x y a b c d : R) :
  b <= 0 -> a <= x <= b -> d <= 0 -> c <= y <= d ->
  b * d <= x * y <= a * c.
Proof. intros Hb [H1 H2] Hd [H3 H4]. split; nra. Qed.

Lemma inv_p (y c d : R) : 0 < c -> c <= y <= d -> / d <= / y <= / c.
Proof.
  intros Hc [H1 H2]. split; apply Rinv_le_contravar; lra.
Qed.

Lemma inv_n (y c d : R) : d < 0 -> c <= y <= d -> / d <= / y <= / c.
Proof.
  intros Hd [H1 H2].
  assert (E : forall z, z < 0 -> / z = - / (- z)).
  { intros z Hz. rewrite Rinv_opp. ring. }
  rewrite (E d), (E y), (E c) by lra.
  assert (/ (- c) <= / (- y) <= / (- d)).
  { split; apply Rinv_le_contravar; lra. }
  lra.
Qed.

(** Sine, cosine and arc sine. *)
Lemma asin_enclosure (x lo hi : R) :
  - (PI / 2) <= lo <= PI / 2 -> - (PI / 2) <= hi <= PI / 2 -> -1 <= x <= 1 ->
  sin lo <= x -> x <= sin hi -> lo <= asin x <= hi.
Proof.
  intros Hlo Hhi Hx H1 H2.
  pose proof (asin_bound x) as [A1 A2].
  split.
  - apply sin_incr_0; try lra. rewrite sin_asin by exact Hx. exact H1.
  - apply sin_incr_0; try lra. rewrite sin_asin by exact Hx. exact H2.
Qed.

Lemma fact_7 : INR (fact 7) = 5040.
Proof. rewrite INR_IZR_INZ. apply f_equal. vm_compute. reflexivity. Qed.
Lemma fact_9 : INR (fact 9) = 362880.
Proof. rewrite INR_IZR_INZ. apply f_equal. vm_compute. reflexivity. Qed.
Lemma fact_8 : INR (fact 8) = 40320.
Proof. rewrite INR_IZR_INZ. apply f_equal. vm_compute. reflexivity. Qed.
Lemma fact_6 : INR (fact 6) = 720.
Proof. rewrite INR_IZR_INZ. apply f_equal. vm_compute. reflexivity. Qed.
Lemma fact_5 : INR (fact 5) = 120.
Proof. rewrite INR_IZR_INZ. apply f_equal. vm_compute. reflexivity. Qed.

Lemma sin_enclosure (a : R) :
  0 <= a <= 4 ->
  a - a ^ 3 / 6 + a ^ 5 / 120 - a ^ 7 / 5040 <= sin a
  /\ sin a <= a - a ^ 3 / 6 + a ^ 5 / 120 - a ^ 7 / 5040 + a ^ 9 / 362880.
Proof.
  intros [H0 H4]. destruct (pre_sin_bound a 1 H0 H4) as [Hl Hu].
  unfold sin_approx, sum_f_R0, sin_term in Hl, Hu.
  cbn [Nat.mul Nat.add] in Hl, Hu.
  rewrite fact_9 in Hu. rewrite fact_7 in Hl, Hu.
  change (INR (fact 5)) with (INR (fact 5)) in Hl.
  rewrite fact_5 in Hl, Hu.
  replace (INR (fact 3)) with 6 in Hl, Hu by (simpl; lra).
  replace (INR (fact 1)) with 1 in Hl, Hu by (simpl; lra).
  simpl pow in Hl, Hu. simpl pow. split; lra.
Qed.

Lemma cos_enclosure (a : R) :
  -2 <= a <= 2 ->
  1 - a ^ 2 / 2 + a ^ 4 / 24 - a ^ 6 / 720 <= cos a
  /\ cos a <= 1 - a ^ 2 / 2 + a ^ 4 / 24 - a ^ 6 / 720 + a ^ 8 / 40320.
Proof.
  intros [H0 H4]. destruct (pre_cos_bound a 1 H0 H4) as [Hl Hu].
  unfold cos_approx, sum_f_R0, cos_term in Hl, Hu.
  cbn [Nat.mul Nat.add] in Hl, Hu.
  rewrite fact_8 in Hu. rewrite fact_6 in Hl, Hu.
  replace (INR (fact 4)) with 24 in Hl, Hu by (simpl; lra).
  replace (INR (fact 2)) with 2 in Hl, Hu by (simpl; lra).
  replace (INR (fact 0)) with 1 in Hl, Hu by (simpl; lra).
  simpl pow in Hl, Hu. simpl pow. split; lra.
Qed.

Lemma mul_pn (x y a b c d : R) :
  0 <= a -> a <= x <= b -> d <= 0 -> c <= y <= d ->
  b * c <= x * y <= a * d.
Proof. intros Ha [H1 H2] Hd [H3 H4]. split; nra. Qed.

Lemma pow_enclosure (x lo hi : R) (n : nat) :
  0 <= lo -> lo <= x <= hi -> lo ^ n <= x ^ n <= hi ^ n.
Proof.
  intros H0 [H1 H2]. split; apply pow_incr; lra.
Qed.

Lemma cos_enclosure_interval (x a b : R) :
  0 <= a -> a <= x <= b -> b <= 2 ->
  1 - b ^ 2 / 2 + b ^ 4 / 24 - b ^ 6 / 720 <= cos x
  /\ cos x <= 1 - a ^ 2 / 2 + a ^ 4 / 24 - a ^ 6 / 720 + a ^ 8 / 40320.
Proof.
  intros Ha [H1 H2] Hb.
  pose proof PI2_3_2 as Hpi.
  assert (Hc1 : cos b <= cos x) by (apply cos_decr_1; lra).
  assert (Hc2 : cos x <= cos a) by (apply cos_decr_1; lra).
  destruct (cos_enclosure a) as [_ Ua]; [lra |].
  destruct (cos_enclosure b) as [Lb _]; [lra |].
  split; lra.
Qed.

Lemma asin_enclosure_neg (x a b lo hi : R) :
  0 <= lo -> lo <= hi -> hi <= 1.5 ->
  0 <= a -> a <= - x <= b -> b <= 1 ->
  lo - lo ^ 3 / 6 + lo ^ 5 / 120 - lo ^ 7 / 5040 + lo ^ 9 / 362880 <= a ->
  b <= hi - hi ^ 3 / 6 + hi ^ 5 / 120 - hi ^ 7 / 5040 ->
  - hi <= asin x <= - lo.
Proof.
  intros Hlo Hlh Hhi Ha [H1 H2] Hb Hs1 Hs2.
  pose proof PI2_3_2 as Hpi.
  destruct (sin_enclosure lo) as [_ Ulo]; [lra |].
  destruct (sin_enclosure hi) as [Lhi _]; [lra |].
  assert (E : asin x = - asin (- x)).
  { rewrite asin_opp. ring. }
  assert (B : lo <= asin (- x) <= hi).
  { apply asin_enclosure; lra. }
  lra.
Qed.

(** ** Real-valued reading of the script

    On inputs for which every operation is defined, each variable of the
    script is a finite number; the formulas below give that number. *)

(** *** Soil stage *)

Lemma soil_properties_defined (i : site) :
  Aa i <> 0 -> -1 <= Ta i / Aa i <= 1 ->
  soil_properties i = Ok (soil_R i).
Proof.
  intros HA Hr. unfold soil_properties.
  rewrite pydiv_Fin by exact HA. cbn [bind].
  rewrite (fdiv_Fin _ (Aa i)) by exact HA. rewrite farcsin_Fin by exact Hr.
  rewrite (fdiv_Fin _ PI) by apply PI_neq0.
  unfold Ksn_of, Csn_of. rewrite !fdiv_Fin by lra.
  reflexivity.
Qed.

Lemma ratio_bounds (t a : R) : Rabs t < a -> a <> 0 /\ -1 < t / a < 1.
Proof.
  intros H. assert (Ha : 0 < a) by (pose proof (Rabs_pos t); lra).
  split; [lra |].
  apply Rabs_def2 in H. destruct H as [H1 H2].
  split.
  - apply Rmult_lt_reg_r with a; [exact Ha |].
    unfold Rdiv. rewrite Rmult_assoc, Rinv_l by lra. lra.
  - apply Rmult_lt_reg_r with a; [exact Ha |].
    unfold Rdiv. rewrite Rmult_assoc, Rinv_l by lra. lra.
Qed.

Lemma soil_properties_valid (i : site) :
  valid i -> soil_properties i = Ok (soil_R i).
Proof.
  intros V. destruct (ratio_bounds _ _ (valid_T i V)) as [HA Hr].
  apply soil_properties_defined; [exact HA | lra].
Qed.

(** ** Monotonicity of the snow damping factor *)

Lemma cosh_gt_1 (c : R) : c <> 0 -> 1 < cosh c.
Proof.
  intros Hc. unfold cosh.
  pose proof (exp_ineq1 c Hc).
  assert (Hc' : - c <> 0) by lra.
  pose proof (exp_ineq1 (- c) Hc'). lra.
Qed.

Lemma sinh_gt_id (t : R) : 0 < t -> t < sinh t.
Proof.
  intros Ht.
  destruct (MVT_cor2 (fun x => sinh x - id x) (fun x => cosh x - 1) 0 t Ht)
    as (c & Hc & Hc0).
  - intros c _. apply derivable_pt_lim_minus.
    + apply derivable_pt_lim_sinh.
    + apply derivable_pt_lim_id.
  - assert (H1 : 1 < cosh c) by (apply cosh_gt_1; lra).
    unfold id in Hc.
    assert (H0 : sinh 0 = 0) by (unfold sinh; rewrite Ropp_0, exp_0; lra).
    rewrite H0 in Hc. nra.
Qed.

Lemma sin_gt_opp (t : R) : 0 < t -> - t < sin t.
Proof.
  intros Ht.
  destruct (MVT_cor2 (fun x => id x + sin x) (fun x => 1 + cos x) 0 t Ht)
    as (c & Hc & Hc0).
  - intros c _. apply derivable_pt_lim_plus.
    + apply derivable_pt_lim_id.
    + apply derivable_pt_lim_sin.
  - unfold id in Hc. rewrite sin_0 in Hc.
    pose proof (COS_bound c) as [Hlo _].
    destruct (Rle_lt_or_eq_dec _ _ Hlo) as [Hlt | Heq].
    + nra.
    + (* cos c = -1: then sin t + t = 0 is excluded by a second point *)
      destruct (Rlt_le_dec t 1) as [Ht1 | Ht1].
      * assert (0 < sin t).
        { apply sin_gt_0; [exact Ht |]. pose proof PI2_1. pose proof PI_RGT_0. lra. }
        lra.
      * pose proof (SIN_bound t) as [Hs _].
        destruct (Rle_lt_or_eq_dec _ _ Ht1) as [Hgt | Heq1]; [lra |].
        subst t.
        assert (0 < sin 1).
        { apply sin_gt_0; [lra |]. pose proof PI2_1. pose proof PI_RGT_0. lra. }
        lra.
Qed.

Lemma cosh_cos_increasing (x y : R) :
  0 <= x < y -> Rabs (cos y - cos x) < cosh y - cosh x.
Proof.
  intros [Hx Hxy].
  apply Rabs_def1.
  - destruct (MVT_cor2 (fun t => cosh t - cos t) (fun t => sinh t - - sin t)
                x y Hxy) as (c & Hc & Hc0).
    + intros c _. apply derivable_pt_lim_minus.
      * apply derivable_pt_lim_cosh.
      * apply derivable_pt_lim_cos.
    + assert (Hcpos : 0 < c) by lra.
      pose proof (sinh_gt_id c Hcpos). pose proof (sin_gt_opp c Hcpos).
      nra.
  - destruct (MVT_cor2 (fun t => cosh t + cos t) (fun t => sinh t + - sin t)
                x y Hxy) as (c & Hc & Hc0).
    + intros c _. apply derivable_pt_lim_plus.
      * apply derivable_pt_lim_cosh.
      * apply derivable_pt_lim_cos.
    + assert (Hcpos : 0 < c) by lra.
      pose proof (sinh_gt_id c Hcpos). pose proof (sin_lt_x c Hcpos).
      nra.
Qed.

Lemma s_fun_increasing (m x y : R) :
  -1 <= m <= 1 -> 0 <= x < y -> s_fun m x < s_fun m y.
Proof.
  intros Hm Hxy.
  pose proof (cosh_cos_increasing x y Hxy) as H.
  unfold cosh in H. unfold s_fun.
  assert (He : exp (- y) < exp (- x)) by (apply exp_increasing; lra).
  assert (Hm2 : m * m <= 1).
  { assert (0 <= (1 - m) * (1 + m)) by (apply Rmult_le_pos; lra). lra. }
  set (d := cos y - cos x) in *.
  assert (Hd : - Rabs d <= m * d).
  { unfold Rabs. destruct (Rcase_abs d); nra. }
  assert (Hq : m * m * (exp (- y) - exp (- x)) >= exp (- y) - exp (- x)) by nra.
  subst d. lra.
Qed.

Lemma s_fun_0 (m : R) : s_fun m 0 = (1 + m) * (1 + m).
Proof. unfold s_fun. rewrite Ropp_0, exp_0, cos_0. ring. Qed.

Lemma s_fun_lower (m x : R) :
  -1 <= m <= 1 -> 0 <= x -> (1 + m) * (1 + m) <= s_fun m x.
Proof.
  intros Hm Hx. rewrite <- s_fun_0.
  destruct (Rle_lt_or_eq_dec _ _ Hx) as [Hlt | <-]; [| lra].
  left. apply s_fun_increasing; [exact Hm | lra].
Qed.

(** ** Well-definedness of the stages on valid sites *)

Lemma fadd_Fin (a b : R) : fadd (Fin a) (Fin b) = Fin (a + b).
Proof. reflexivity. Qed.
Lemma fsub_Fin (a b : R) : fsub (Fin a) (Fin b) = Fin (a - b).
Proof. reflexivity. Qed.
Lemma fmul_Fin (a b : R) : fmul (Fin a) (Fin b) = Fin (a * b).
Proof. reflexivity. Qed.
Lemma fneg_Fin (a : R) : fneg (Fin a) = Fin (- a).
Proof. reflexivity. Qed.
Lemma fabs_Fin (a : R) : fabs (Fin a) = Fin (Rabs a).
Proof. reflexivity. Qed.
Lemma fexp_Fin (a : R) : fexp (Fin a) = Fin (exp a).
Proof. reflexivity. Qed.
Lemma fcos_Fin (a : R) : fcos (Fin a) = Fin (cos a).
Proof. reflexivity. Qed.

Ltac eval_step :=
  first
    [ progress autorewrite with fin
    | progress cbn [bind]
    | rewrite pydiv_Fin by lra
    | rewrite fdiv_Fin by lra
    | rewrite flog_Fin by lra
    | rewrite fsqrt_Fin by lra
    | rewrite farcsin_Fin by lra
    | progress unfold fpow2 ].

Create Rewrite HintDb fin.
#[export] Hint Rewrite fadd_Fin fsub_Fin fmul_Fin fneg_Fin fabs_Fin fexp_Fin
  fcos_Fin : fin.

Lemma Rpower_pos (a b : R) : 0 < Rpower a b.
Proof. unfold Rpower. apply exp_pos. Qed.

Lemma Heat_Capacity_R_pos (i : site) : 0 < Heat_Capacity_R i.
Proof. unfold Heat_Capacity_R. repeat apply Rmult_lt_0_compat; apply Rpower_pos. Qed.

Lemma Bulk_Density_R_pos (i : site) : 0 < Bulk_Density_R i.
Proof. unfold Bulk_Density_R. repeat apply Rmult_lt_0_compat; apply Rpower_pos. Qed.

Lemma Kt_R_pos (i : site) : 0 < Kt_R i.
Proof. unfold Kt_R. repeat apply Rmult_lt_0_compat; apply Rpower_pos. Qed.

Lemma Kf_R_pos (i : site) : 0 < Kf_R i.
Proof. unfold Kf_R. repeat apply Rmult_lt_0_compat; apply Rpower_pos. Qed.

Lemma Ksn_R_pos (i : site) : 0 < Ksn_R i.
Proof.
  unfold Ksn_R. set (x := rho_sn i / 1000).
  pose proof (Rle_0_sqr (x - 505 / 3233)) as Hsq. unfold Rsqr in Hsq.
  lra.
Qed.

Section ValidSite.

Variable i : site.
Hypothesis V : valid i.

Lemma Aa_pos : 0 < Aa i.
Proof. pose proof (valid_T i V). pose proof (Rabs_pos (Ta i)). lra. Qed.

Lemma Cf_R_pos : 0 < Cf_R i.
Proof.
  unfold Cf_R. pose proof (valid_W i V).
  pose proof (Rmult_lt_0_compat _ _ (Heat_Capacity_R_pos i) (Bulk_Density_R_pos i)).
  lra.
Qed.

Lemma Ct_R_pos : 0 < Ct_R i.
Proof.
  unfold Ct_R. pose proof (valid_W i V).
  pose proof (Rmult_lt_0_compat _ _ (Heat_Capacity_R_pos i) (Bulk_Density_R_pos i)).
  lra.
Qed.

Lemma L_R_pos : 0 < L_R i.
Proof. unfold L_R. pose proof (valid_W i V). lra. Qed.

Lemma Csn_R_pos : 0 < Csn_R i.
Proof. unfold Csn_R. pose proof (valid_rho i V). lra. Qed.

Lemma beta_R_nonneg : 0 <= beta_R i.
Proof.
  unfold beta_R. apply Rmult_le_pos.
  - apply Rmult_le_pos; [| left; apply Cf_R_pos].
    pose proof (Rabs_pos (Ta i)). lra.
  - left. apply Rinv_0_lt_compat, L_R_pos.
Qed.

Lemma alpha_beta_gap : 0 < alpha_R i - beta_R i.
Proof.
  unfold alpha_R, beta_R.
  replace (2 * Aa i * Cf_R i / L_R i - 2 * Rabs (Ta i) * Cf_R i / L_R i)
    with (2 * (Aa i - Rabs (Ta i)) * (Cf_R i * / L_R i)) by (unfold Rdiv; ring).
  apply Rmult_lt_0_compat.
  - pose proof (valid_T i V). lra.
  - apply Rmult_lt_0_compat; [apply Cf_R_pos | apply Rinv_0_lt_compat, L_R_pos].
Qed.

Lemma log_ratio_gt_1 : 1 < (alpha_R i + 1) / (beta_R i + 1).
Proof.
  pose proof beta_R_nonneg. pose proof alpha_beta_gap.
  apply Rmult_lt_reg_r with (beta_R i + 1); [lra |].
  unfold Rdiv. rewrite Rmult_assoc, Rinv_l by lra. lra.
Qed.

End ValidSite.

Lemma ln_lt_pred (u : R) : 0 < u -> u <> 1 -> ln u < u - 1.
Proof.
  intros H0 H1.
  assert (Hn : ln u <> 0) by (apply ln_neq_0; assumption).
  pose proof (exp_ineq1 (ln u) Hn) as H. rewrite exp_ln in H by exact H0. lra.
Qed.

Lemma ln_pos (u : R) : 1 < u -> 0 < ln u.
Proof. intros H. rewrite <- ln_1. apply ln_increasing; lra. Qed.

Section ValidSnow.

Variable i : site.
Hypothesis V : valid i.

Lemma log_term_bounds :
  0 < ln ((alpha_R i + 1) / (beta_R i + 1)) < alpha_R i - beta_R i.
Proof.
  pose proof (log_ratio_gt_1 i V) as Hu.
  pose proof (beta_R_nonneg i V) as Hb. pose proof (alpha_beta_gap i V) as Hg.
  split; [apply ln_pos, Hu |].
  apply Rlt_le_trans with ((alpha_R i + 1) / (beta_R i + 1) - 1).
  - apply ln_lt_pred; lra.
  - replace ((alpha_R i + 1) / (beta_R i + 1) - 1)
      with ((alpha_R i - beta_R i) * / (beta_R i + 1)) by (field; lra).
    rewrite <- (Rmult_1_r (alpha_R i - beta_R i)) at 2.
    apply Rmult_le_compat_l; [lra |].
    rewrite <- Rinv_1. apply Rinv_le_contravar; lra.
Qed.

Lemma Cef_R_gt_Cf : Cf_R i < Cef_R i.
Proof.
  pose proof log_term_bounds as [Hl1 Hl2].
  pose proof (alpha_beta_gap i V) as Hg. pose proof (Cf_R_pos i V) as Hc.
  unfold Cef_R.
  set (g := alpha_R i - beta_R i) in *.
  set (l := ln ((alpha_R i + 1) / (beta_R i + 1))) in *.
  rewrite <- (Rmult_1_r (Cf_R i)) at 1.
  apply Rmult_lt_compat_l; [exact Hc |].
  apply Rmult_lt_reg_r with (g - l); [lra |].
  unfold Rdiv. rewrite Rmult_assoc, Rinv_l by lra. lra.
Qed.

Lemma Cef_R_pos : 0 < Cef_R i.
Proof. pose proof Cef_R_gt_Cf. pose proof (Cf_R_pos i V). lra. Qed.

Lemma snow_admittance_pos : 0 < sqrt (Ksn_R i * Csn_R i).
Proof.
  apply sqrt_lt_R0, Rmult_lt_0_compat; [apply Ksn_R_pos | apply Csn_R_pos, V].
Qed.

Lemma ground_admittance_pos : 0 < sqrt (Kf_R i * Cef_R i).
Proof.
  apply sqrt_lt_R0, Rmult_lt_0_compat; [apply Kf_R_pos | apply Cef_R_pos].
Qed.

Lemma mu_R_bounds : -1 < mu_R i < 1.
Proof.
  pose proof snow_admittance_pos as Ha. pose proof ground_admittance_pos as Hb.
  unfold mu_R.
  set (a := sqrt (Ksn_R i * Csn_R i)) in *.
  set (b := sqrt (Kf_R i * Cef_R i)) in *.
  split.
  - apply Rmult_lt_reg_r with (a + b); [lra |].
    unfold Rdiv. rewrite Rmult_assoc, Rinv_l by lra. lra.
  - apply Rmult_lt_reg_r with (a + b); [lra |].
    unfold Rdiv. rewrite Rmult_assoc, Rinv_l by lra. lra.
Qed.

Lemma snow_quotient_pos : 0 < PI * Csn_R i / (tao * Ksn_R i).
Proof.
  apply Rdiv_lt_0_compat.
  - apply Rmult_lt_0_compat; [apply PI_RGT_0 | apply Csn_R_pos, V].
  - apply Rmult_lt_0_compat; [apply tao_pos | apply Ksn_R_pos].
Qed.

Lemma snow_arg_nonneg : 0 <= snow_arg i.
Proof.
  unfold snow_arg. apply Rmult_le_pos; [| apply sqrt_pos].
  pose proof (valid_Hsn i V). lra.
Qed.

Lemma s_R_fun : s_R i = s_fun (mu_R i) (snow_arg i).
Proof.
  unfold s_R, s_fun, snow_arg.
  replace (-2 * Hsn i * sqrt (PI * Csn_R i / (tao * Ksn_R i)))
    with (- (2 * Hsn i * sqrt (PI * Csn_R i / (tao * Ksn_R i)))) by ring.
  reflexivity.
Qed.

Lemma s_R_lower : (1 + mu_R i) * (1 + mu_R i) <= s_R i.
Proof.
  rewrite s_R_fun. pose proof mu_R_bounds.
  apply s_fun_lower; [lra | apply snow_arg_nonneg].
Qed.

Lemma s_R_pos : 0 < s_R i.
Proof.
  pose proof s_R_lower. pose proof mu_R_bounds.
  assert (0 < (1 + mu_R i) * (1 + mu_R i)) by (apply Rmult_lt_0_compat; lra).
  lra.
Qed.

Lemma sqrt_s_R_lower : 1 + mu_R i <= sqrt (s_R i).
Proof.
  pose proof mu_R_bounds.
  rewrite <- (sqrt_square (1 + mu_R i)) by lra.
  apply sqrt_le_1_alt, s_R_lower.
Qed.

Lemma transmission_bounds : 0 < (1 + mu_R i) / sqrt (s_R i) <= 1.
Proof.
  pose proof mu_R_bounds. pose proof sqrt_s_R_lower.
  assert (Hs : 0 < sqrt (s_R i)) by lra.
  split.
  - apply Rdiv_lt_0_compat; lra.
  - apply Rmult_le_reg_r with (sqrt (s_R i)); [exact Hs |].
    unfold Rdiv. rewrite Rmult_assoc, Rinv_l by lra. lra.
Qed.

Lemma deta_A_R_bounds : 0 <= deta_A_R i < Aa i.
Proof.
  pose proof transmission_bounds as [H1 H2]. pose proof (Aa_pos i V).
  unfold deta_A_R. split; nra.
Qed.

Lemma asin_ratio_bounds : - (PI / 2) < asin (Ta i / Aa i) < PI / 2.
Proof.
  apply asin_bound_lt. apply ratio_bounds. apply (valid_T i V).
Qed.

Lemma tao1_R_bounds : 0 < tao1_R i < tao.
Proof.
  pose proof asin_ratio_bounds as [H1 H2]. pose proof PI_RGT_0 as Hpi.
  pose proof tao_pos as Ht. unfold tao1_R.
  assert (Hq : -(1 / 2) < 1 / PI * asin (Ta i / Aa i) < 1 / 2).
  { split.
    - apply Rmult_lt_reg_l with PI; [exact Hpi |].
      replace (PI * (1 / PI * asin (Ta i / Aa i))) with (asin (Ta i / Aa i))
        by (field; lra). lra.
    - apply Rmult_lt_reg_l with PI; [exact Hpi |].
      replace (PI * (1 / PI * asin (Ta i / Aa i))) with (asin (Ta i / Aa i))
        by (field; lra). lra. }
  split; nra.
Qed.

Lemma tao2_R_bounds : 0 < tao2_R i < tao.
Proof. pose proof tao1_R_bounds. unfold tao2_R. lra. Qed.

Lemma snow_effect_valid : snow_effect i (soil_R i) = Ok (snow_R i).
Proof.
  pose proof (L_R_pos i V) as HL. pose proof (beta_R_nonneg i V) as Hb.
  pose proof (alpha_beta_gap i V) as Hg. pose proof log_term_bounds as [Hl1 Hl2].
  pose proof (log_ratio_gt_1 i V) as Hu.
  pose proof snow_admittance_pos as Ha. pose proof ground_admittance_pos as Hgr.
  pose proof (Ksn_R_pos i) as Hk. pose proof (Csn_R_pos i V) as Hc.
  pose proof Cef_R_pos as Hcef. pose proof (Kf_R_pos i) as Hkf.
  pose proof snow_quotient_pos as Hq. pose proof s_R_pos as Hs.
  pose proof tao_pos as Ht. pose proof PI_RGT_0 as Hpi.
  assert (Htk : 0 < tao * Ksn_R i) by (apply Rmult_lt_0_compat; assumption).
  assert (Hkc : 0 < Ksn_R i * Csn_R i) by (apply Rmult_lt_0_compat; assumption).
  assert (Hkf' : 0 < Kf_R i * Cef_R i) by (apply Rmult_lt_0_compat; assumption).
  assert (Hss : 0 < sqrt (s_R i)) by (apply sqrt_lt_R0, Hs).
  unfold snow_effect. cbn [soil_R Cf L Ksn Csn Kf tao1].
  unfold s_R, mu_R, Cef_R, alpha_R, beta_R in *.
  repeat eval_step.
  reflexivity.
Qed.

End ValidSnow.

Section ValidVegetation.

Variable i : site.
Hypothesis V : valid i.

Lemma veg_factor_defined (H D t : R) :
  0 < D -> 0 < t -> veg_factor H D (Fin t) = Fin (veg_factor_R H D t).
Proof.
  intros HD Ht. pose proof PI_RGT_0 as Hpi.
  assert (Hd : 0 < D * 2 * t) by nra.
  assert (Hq : 0 < PI / (D * 2 * t)) by (apply Rdiv_lt_0_compat; lra).
  unfold veg_factor. repeat eval_step. reflexivity.
Qed.

Lemma vegetation_effect_valid :
  vegetation_effect i (soil_R i) (snow_R i) = vegetation_R i.
Proof.
  pose proof (tao1_R_bounds i V) as [H1 _]. pose proof (tao2_R_bounds i V) as [H2 _].
  pose proof tao_pos as Ht. pose proof PI_RGT_0 as Hpi.
  unfold vegetation_effect. cbn [soil_R snow_R tao1 tao2 deta_Tsn deta_Asn].
  rewrite !veg_factor_defined by (first [apply V | assumption]).
  repeat eval_step. reflexivity.
Qed.

End ValidVegetation.

(** The solver raises only on a zero heat capacity. *)
Lemma solver_returns (Tgs Ags Kf Kt L : float64) (cf ct : R) :
  cf <> 0 -> ct <> 0 ->
  exists x, solver Tgs Ags Kf Kt (Fin cf) (Fin ct) L = Ok x.
Proof.
  intros Hf Ht. pose proof PI_RGT_0 as Hpi.
  unfold solver, regime, closed_form.
  destruct (fle (Tps_numerator_of Tgs Ags Kf Kt) (Fin 0)).
  - autorewrite with fin. rewrite !pydiv_Fin by nra. cbn [bind].
    eexists. reflexivity.
  - autorewrite with fin. rewrite !pydiv_Fin by nra. cbn [bind].
    eexists. reflexivity.
Qed.

Lemma permafrost_model_valid (i : site) :
  valid i ->
  exists x,
    solver (Fin (Tgs_R i)) (Fin (Ags_R i)) (Fin (Kf_R i)) (Fin (Kt_R i))
      (Fin (Cf_R i)) (Fin (Ct_R i)) (Fin (L_R i)) = Ok x
    /\ permafrost_model i
       = Ok {| out_soil := soil_R i; out_snow := snow_R i;
               out_veg := vegetation_R i; out_sol := x |}.
Proof.
  intros V. pose proof (Cf_R_pos i V). pose proof (Ct_R_pos i V).
  destruct (solver_returns (Fin (Tgs_R i)) (Fin (Ags_R i)) (Fin (Kf_R i))
              (Fin (Kt_R i)) (Fin (L_R i)) (Cf_R i) (Ct_R i)) as [x Hx]; try lra.
  exists x. split; [exact Hx |].
  unfold permafrost_model.
  rewrite (soil_properties_valid i V). cbn [bind].
  rewrite (snow_effect_valid i V). cbn [bind].
  rewrite (vegetation_effect_valid i V).
  cbn [vegetation_R soil_R Tgs Ags Kf Kt Cf Ct L].
  rewrite Hx. reflexivity.
Qed.

(** ** The conditional and the closed forms *)

Lemma regime_cases (n Kf Kt Cf Ct : float64) :
  (fle n (Fin 0) = true /\ regime n Kf Kt Cf Ct = (Kf, Cf, Kf, Frozen))
  \/ (fle n (Fin 0) = false /\ regime n Kf Kt Cf Ct = (Kt, Ct, Kt, Thawed)).
Proof.
  unfold regime. destruct (fle n (Fin 0)); [left | right]; split; reflexivity.
Qed.

Lemma fmul_pos_zero (p : R) (c : float64) :
  0 < p -> fmul (Fin p) c = Fin 0 -> c = Fin 0.
Proof.
  intros Hp. destruct c; simpl; try discriminate.
  - intros [= H]. f_equal. nra.
  - unfold inf_times. destruct (Reqb p 0); try discriminate.
    destruct (xorb true (Rltb p 0)); discriminate.
  - unfold inf_times. destruct (Reqb p 0); try discriminate.
    destruct (xorb false (Rltb p 0)); discriminate.
Qed.

Lemma closed_form_raise (Ags n ks c k L : float64) (f : Z) (e : exn) :
  closed_form Ags n ks c k L f = Raise e -> c = Fin 0.
Proof.
  unfold closed_form.
  destruct (pydiv L (fmul (Fin 2) c)) as [h | e1] eqn:E1; cbn [bind].
  - destruct (pydiv (fmul k (Fin tao)) (fmul (Fin PI) c)) as [q | e2] eqn:E2;
      cbn [bind]; [discriminate |].
    intros _. apply pydiv_raise in E2.
    apply (fmul_pos_zero PI); [apply PI_RGT_0 | exact E2].
  - intros _. apply pydiv_raise in E1.
    apply (fmul_pos_zero 2); [lra | exact E1].
Qed.

Lemma closed_form_fields (Ags n ks c k L : float64) (f : Z) (x : solution) :
  closed_form Ags n ks c k L f = Ok x ->
  Tps_numerator x = n /\ K_star x = ks /\ C x = c /\ K x = k /\ Flag x = f
  /\ Tps x = fdiv n ks.
Proof.
  unfold closed_form.
  destruct (pydiv L (fmul (Fin 2) c)) as [h | e1]; cbn [bind]; [| discriminate].
  destruct (pydiv (fmul k (Fin tao)) (fmul (Fin PI) c)) as [q | e2];
    cbn [bind]; [| discriminate].
  intros [= <-]. cbn. repeat split; reflexivity.
Qed.

Lemma closed_form_NaN (Ags ks c k L : float64) (f : Z) (x : solution) :
  closed_form Ags NaN ks c k L f = Ok x ->
  Tps x = NaN /\ Aps x = NaN /\ Zc x = NaN /\ Zal x = NaN.
Proof.
  unfold closed_form.
  destruct (pydiv L (fmul (Fin 2) c)) as [h | e1]; cbn [bind]; [| discriminate].
  destruct (pydiv (fmul k (Fin tao)) (fmul (Fin PI) c)) as [q | e2];
    cbn [bind]; [| discriminate].
  intros [= <-]. cbn [Tps Aps Zc Zal fdiv fabs].
  autorewrite with nan. repeat split; reflexivity.
Qed.

(** C1 (regime selection).  For every input the solver takes exactly one of
    two branches, chosen by the test [Tps_numerator <= 0]: when it holds the
    regime is Frozen and [K_star = Kf], [C = Cf], [K = Kf]; otherwise (a NaN
    numerator included) the regime is Thawed and [K_star = Kt], [C = Ct],
    [K = Kt].  The two cases exclude each other and cover every input, and
    when the solver returns, its record carries the selected constants, the
    flag is Frozen exactly when the test held, and
    [Tps = Tps_numerator / K_star].  It raises only if the selected heat
    capacity is zero. *)
Theorem regime_selection (Tgs Ags Kf Kt Cf Ct L : float64) :
  let n := Tps_numerator_of Tgs Ags Kf Kt in
  ((fle n (Fin 0) = true /\ regime n Kf Kt Cf Ct = (Kf, Cf, Kf, Frozen))
   \/ (fle n (Fin 0) = false /\ regime n Kf Kt Cf Ct = (Kt, Ct, Kt, Thawed)))
  /\ ~ (fle n (Fin 0) = true /\ fle n (Fin 0) = false)
  /\ Frozen <> Thawed
  /\ match solver Tgs Ags Kf Kt Cf Ct L with
     | Ok x =>
         Tps_numerator x = n
         /\ (K_star x, C x, K x, Flag x) = regime n Kf Kt Cf Ct
         /\ (Flag x = Frozen <-> fle n (Fin 0) = true)
         /\ (Flag x = Thawed <-> fle n (Fin 0) = false)
         /\ Tps x = fdiv n (K_star x)
     | Raise _ => snd (fst (fst (regime n Kf Kt Cf Ct))) = Fin 0
     end.
Proof.
  intros n. split; [apply regime_cases |].
  split; [intros [H1 H2]; congruence |].
  split; [discriminate |].
  unfold solver. fold n.
  destruct (regime_cases n Kf Kt Cf Ct) as [[Hn Hr] | [Hn Hr]]; rewrite Hr.
  - destruct (closed_form Ags n Kf Cf Kf L Frozen) as [x | e] eqn:E.
    + apply closed_form_fields in E.
      destruct E as (E1 & E2 & E3 & E4 & E5 & E6).
      rewrite E1, E2, E3, E4, E5, E6, Hn.
      repeat split; auto; discriminate.
    + cbn [fst snd]. exact (closed_form_raise _ _ _ _ _ _ _ _ E).
  - destruct (closed_form Ags n Kt Ct Kt L Thawed) as [x | e] eqn:E.
    + apply closed_form_fields in E.
      destruct E as (E1 & E2 & E3 & E4 & E5 & E6).
      rewrite E1, E2, E3, E4, E5, E6, Hn.
      repeat split; auto; discriminate.
    + cbn [fst snd]. exact (closed_form_raise _ _ _ _ _ _ _ _ E).
Qed.

Lemma Ksn_value (rho : R) :
  Ksn_of rho = Fin (rho / 1000 * (rho / 1000) * 3.233 + - (1.01 * (rho / 1000)) + 0.138).
Proof.
  unfold Ksn_of. rewrite !fdiv_Fin by lra. reflexivity.
Qed.

Lemma Ksn_pos (rho : R) :
  0 < rho / 1000 * (rho / 1000) * 3.233 + - (1.01 * (rho / 1000)) + 0.138.
Proof.
  set (x := rho / 1000).
  pose proof (Rle_0_sqr (x - 505 / 3233)) as Hsq. unfold Rsqr in Hsq.
  lra.
Qed.

(** C9 (snow conductivity).  For every real snow density the polynomial
    [Ksn = 3.233*(rho_sn/1000)^2 - 1.01*(rho_sn/1000) + 0.138] is strictly
    positive; for [rho_sn > 0] the product [Ksn*Csn] is positive, so its
    square root is defined and positive, and the quotient
    [np.pi*Csn/(tao*Ksn)] is computed without error and is positive. *)
Theorem snow_conductivity_positive (rho : R) :
  exists k : R,
    Ksn_of rho = Fin k
    /\ k = 3.233 * (rho / 1000) ^ 2 - 1.01 * (rho / 1000) + 0.138
    /\ 0 < k
    /\ (0 < rho ->
        exists c : R,
          Csn_of rho = Fin c
          /\ 0 < k * c
          /\ fsqrt (fmul (Ksn_of rho) (Csn_of rho)) = Fin (sqrt (k * c))
          /\ 0 < sqrt (k * c)
          /\ pydiv (fmul (Fin PI) (Csn_of rho)) (fmul (Fin tao) (Ksn_of rho))
             = Ok (Fin (PI * c / (tao * k)))
          /\ 0 < PI * c / (tao * k)).
Proof.
  pose proof (Ksn_pos rho) as Hk.
  exists (rho / 1000 * (rho / 1000) * 3.233 + - (1.01 * (rho / 1000)) + 0.138).
  split; [apply Ksn_value |].
  split; [ring |].
  split; [exact Hk |].
  intros Hrho. exists (rho * 2.09E3).
  set (k := rho / 1000 * (rho / 1000) * 3.233 + - (1.01 * (rho / 1000)) + 0.138) in *.
  assert (Hc : 0 < rho * 2.09E3) by lra.
  assert (Hkc : 0 < k * (rho * 2.09E3)) by (apply Rmult_lt_0_compat; assumption).
  pose proof tao_pos as Ht. pose proof PI_RGT_0 as Hpi.
  assert (Htk : 0 < tao * k) by (apply Rmult_lt_0_compat; assumption).
  split; [reflexivity |].
  split; [exact Hkc |].
  rewrite Ksn_value. fold k. unfold Csn_of. cbn [fmul].
  split; [apply fsqrt_Fin; lra |].
  split; [apply sqrt_lt_R0; exact Hkc |].
  split.
  - rewrite pydiv_Fin by lra. rewrite fdiv_Fin by lra. reflexivity.
  - apply Rdiv_lt_0_compat; [apply Rmult_lt_0_compat|]; assumption.
Qed.

Lemma snow_conductivity_positive_witness :
  0 < 240 /\
  exists k : R,
    Ksn_of 240 = Fin k /\ 0 < k
    /\ exists c : R, Csn_of 240 = Fin c /\ 0 < k * c.
Proof.
  split; [lra |].
  destruct (snow_conductivity_positive 240) as (k & Hk & _ & Hpos & Hc).
  exists k. split; [exact Hk |]. split; [exact Hpos |].
  destruct Hc as (c & Hc1 & Hc2 & _); [lra |].
  exists c. split; assumption.
Defined.




(** Whatever makes the numerator NaN sends the script into the thawed
    branch and makes every later quantity NaN. *)
Lemma solver_NaN (Tgs Ags Kf Kt Cf Ct L : float64) :
  Tps_numerator_of Tgs Ags Kf Kt = NaN ->
  match solver Tgs Ags Kf Kt Cf Ct L with
  | Ok x =>
      Tps_numerator x = NaN /\ Flag x = Thawed /\ Tps x = NaN
      /\ Aps x = NaN /\ Zc x = NaN /\ Zal x = NaN
  | Raise _ => Ct = Fin 0
  end.
Proof.
  intros Hn. unfold solver. rewrite Hn. unfold regime. cbn [fle].
  destruct (closed_form Ags NaN Kt Ct Kt L Thawed) as [x | e] eqn:E.
  - pose proof (closed_form_fields _ _ _ _ _ _ _ _ E) as (E1 & _ & _ & _ & E5 & _).
    pose proof (closed_form_NaN _ _ _ _ _ _ _ E) as (N1 & N2 & N3 & N4).
    repeat split; assumption.
  - exact (closed_form_raise _ _ _ _ _ _ _ _ E).
Qed.


(** ** Real-valued reading of the closed forms *)

Ltac side := first [assumption | lra].

Ltac eval_step' :=
  first
    [ progress autorewrite with fin
    | progress cbn [bind]
    | rewrite pydiv_Fin by side
    | rewrite fdiv_Fin by side
    | rewrite flog_Fin by side
    | rewrite fsqrt_Fin by side
    | rewrite farcsin_Fin by side ].

Lemma closed_form_defined (a n ks c k l : R) (f : Z) :
  ks <> 0 -> 0 < c ->
  Rabs (n / ks) + l / (2 * c) <> 0 ->
  0 < (a + l / (2 * c)) / (Rabs (n / ks) + l / (2 * c)) ->
  ln ((a + l / (2 * c)) / (Rabs (n / ks) + l / (2 * c))) <> 0 ->
  0 <= k * tao * c / PI ->
  0 <= k * tao / (PI * c) ->
  2 * Aps_R a (Rabs (n / ks)) (l / (2 * c)) * c + l <> 0 ->
  2 * a * c
    * Zc_R a (Rabs (n / ks)) k c l (Aps_R a (Rabs (n / ks)) (l / (2 * c)))
  + l * Zc_R a (Rabs (n / ks)) k c l (Aps_R a (Rabs (n / ks)) (l / (2 * c)))
  + (2 * Aps_R a (Rabs (n / ks)) (l / (2 * c)) * c + l)
    * sqrt (k * tao / (PI * c)) <> 0 ->
  closed_form (Fin a) (Fin n) (Fin ks) (Fin c) (Fin k) (Fin l) f
  = Ok {| Tps_numerator := Fin n; K_star := Fin ks; C := Fin c; K := Fin k;
          Flag := f; Tps := Fin (n / ks);
          Aps := Fin (Aps_R a (Rabs (n / ks)) (l / (2 * c)));
          Zc := Fin (Zc_R a (Rabs (n / ks)) k c l
                       (Aps_R a (Rabs (n / ks)) (l / (2 * c))));
          Zal := Fin (Zal_R a (Rabs (n / ks)) k c l
                        (Aps_R a (Rabs (n / ks)) (l / (2 * c)))
                        (Zc_R a (Rabs (n / ks)) k c l
                           (Aps_R a (Rabs (n / ks)) (l / (2 * c))))) |}.
Proof.
  intros Hks Hc HTh Hy Hln Hs1 Hs2 HD Hden.
  pose proof PI_RGT_0 as Hpi.
  assert (Hpc : 0 < PI * c) by (apply Rmult_lt_0_compat; lra).
  unfold closed_form, Zal_R, Zc_R, Aps_R in *.
  repeat eval_step'.
  reflexivity.
Qed.


Lemma closed_form_returns (Ags n ks k L : float64) (c : R) (f : Z) :
  c <> 0 -> exists x, closed_form Ags n ks (Fin c) k L f = Ok x.
Proof.
  intros Hc.
  destruct (closed_form Ags n ks (Fin c) k L f) as [x | e] eqn:E.
  - now exists x.
  - apply closed_form_raise in E. injection E as E. contradiction.
Qed.


Section PositiveSolve.

Variables a n k c l : R.
Hypothesis Ha : 0 < a.
Hypothesis Hk : 0 < k.
Hypothesis Hc : 0 < c.
Hypothesis Hl : 0 <= l.

Let T := Rabs (n / k).
Let h := l / (2 * c).





End PositiveSolve.

Lemma Tps_numerator_defined (t a kf kt : R) :
  a <> 0 -> -1 <= t / a <= 1 -> 0 <= 1 - PI * PI / (a * a) ->
  Tps_numerator_of (Fin t) (Fin a) (Fin kf) (Fin kt)
  = Fin (Tps_numerator_R t a kf kt).
Proof.
  intros Ha Hr Hs. pose proof PI_RGT_0 as Hpi.
  assert (Haa : a * a <> 0) by (apply Rmult_integral_contrapositive_currified; assumption).
  unfold Tps_numerator_of. repeat eval_step'. reflexivity.
Qed.












(** ** Dependence of the ground-surface values on the snow thickness *)

Lemma valid_set_Hsn (i : site) (h : R) : valid i -> 0 <= h -> valid (set_Hsn i h).
Proof. intros [] Hh. constructor; assumption. Qed.

Lemma asin_le (x y : R) : -1 <= x -> x <= y -> y <= 1 -> asin x <= asin y.
Proof.
  intros Hx Hxy Hy.
  assert (Bx : -1 <= x <= 1) by lra. assert (By : -1 <= y <= 1) by lra.
  pose proof (asin_bound x) as [X1 X2]. pose proof (asin_bound y) as [Y1 Y2].
  apply sin_incr_0; try assumption.
  rewrite !sin_asin by assumption. exact Hxy.
Qed.





Section Thickness.

Variable i : site.
Hypothesis V : valid i.
Variables h1 h2 : R.
Hypothesis Hh1 : 0 <= h1.
Hypothesis Hh12 : h1 < h2.

Let i1 := set_Hsn i h1.
Let i2 := set_Hsn i h2.

Lemma V1 : valid i1.
Proof. apply valid_set_Hsn; [exact V | exact Hh1]. Qed.


Lemma snow_arg_increasing : snow_arg i1 < snow_arg i2.
Proof.
  unfold snow_arg, i1, i2. cbn [set_Hsn Hsn].
  change (Csn_R (set_Hsn i h1)) with (Csn_R i).
  change (Csn_R (set_Hsn i h2)) with (Csn_R i).
  change (Ksn_R (set_Hsn i h1)) with (Ksn_R i).
  change (Ksn_R (set_Hsn i h2)) with (Ksn_R i).
  assert (0 < sqrt (PI * Csn_R i / (tao * Ksn_R i)))
    by (apply sqrt_lt_R0, (snow_quotient_pos i V)).
  apply Rmult_lt_compat_r; [assumption | lra].
Qed.

Lemma s_R_increasing : s_R i1 < s_R i2.
Proof.
  rewrite (s_R_fun i1), (s_R_fun i2).
  change (mu_R i2) with (mu_R i1).
  pose proof (mu_R_bounds i1 V1).
  apply s_fun_increasing; [lra |].
  split; [apply (snow_arg_nonneg i1 V1) | apply snow_arg_increasing].
Qed.

Lemma deta_A_R_increasing : deta_A_R i1 < deta_A_R i2.
Proof.
  pose proof (mu_R_bounds i1 V1) as Hm. pose proof s_R_increasing as Hs.
  pose proof (s_R_pos i1 V1) as Hs1. pose proof (Aa_pos i V) as HA.
  unfold deta_A_R. change (mu_R i2) with (mu_R i1).
  change (Aa i2) with (Aa i). change (Aa i1) with (Aa i).
  assert (Hq : sqrt (s_R i1) < sqrt (s_R i2)) by (apply sqrt_lt_1; lra).
  assert (Hq1 : 0 < sqrt (s_R i1)) by (apply sqrt_lt_R0; lra).
  assert (Hinv : / sqrt (s_R i2) < / sqrt (s_R i1))
    by (apply Rinv_lt_contravar; [apply Rmult_lt_0_compat |]; lra).
  unfold Rdiv.
  assert ((1 + mu_R i1) * / sqrt (s_R i2) < (1 + mu_R i1) * / sqrt (s_R i1))
    by (apply Rmult_lt_compat_l; lra).
  nra.
Qed.

Lemma deta_Asn_R_increasing : deta_Asn_R i1 < deta_Asn_R i2.
Proof.
  pose proof deta_A_R_increasing as H.
  pose proof (tao1_R_bounds i V) as [Ht _]. pose proof tao_pos as Htao.
  unfold deta_Asn_R.
  change (tao1_R i1) with (tao1_R i). change (tao1_R i2) with (tao1_R i).
  assert (Hq : 0 < tao1_R i / tao * 0.5).
  { apply Rmult_lt_0_compat; [apply Rdiv_lt_0_compat |]; lra. }
  replace (deta_A_R i1 * tao1_R i / tao * 0.5)
    with (deta_A_R i1 * (tao1_R i / tao * 0.5)) by (unfold Rdiv; ring).
  replace (deta_A_R i2 * tao1_R i / tao * 0.5)
    with (deta_A_R i2 * (tao1_R i / tao * 0.5)) by (unfold Rdiv; ring).
  apply Rmult_lt_compat_r; assumption.
Qed.

(** The cold-season fraction of the year. *)
Lemma cold_fraction :
  tao1_R i / tao = 0.5 - asin (Ta i / Aa i) / PI.
Proof.
  unfold tao1_R. pose proof tao_pos. pose proof PI_RGT_0. field. lra.
Qed.






End Thickness.

Lemma Barrow_valid : valid Barrow.
Proof.
  constructor; cbn; try lra.
  unfold Rabs. destruct (Rcase_abs (-10.81)); lra.
Qed.

(** C6 (season-length partition).  For [Aa <> 0] and [|Ta/Aa| < 1] the soil
    stage returns finite season lengths with [tao1 + tao2 = tao], where
    [tao = 365*24*3600]. *)
Theorem season_partition (i : site) :
  Aa i <> 0 -> Rabs (Ta i / Aa i) < 1 ->
  exists (p : soil) (t1 t2 : R),
    soil_properties i = Ok p
    /\ tao1 p = Fin t1 /\ tao2 p = Fin t2
    /\ t1 + t2 = tao
    /\ tao = 365 * 24 * 3600
    /\ fadd (tao1 p) (tao2 p) = Fin tao.
Proof.
  intros HA Hr. apply Rabs_def2 in Hr.
  exists (soil_R i), (tao1_R i), (tao2_R i).
  split; [apply soil_properties_defined; [exact HA | lra] |].
  split; [reflexivity |]. split; [reflexivity |].
  assert (Hsum : tao1_R i + tao2_R i = tao) by (unfold tao2_R; ring).
  split; [exact Hsum |]. split; [reflexivity |].
  cbn [soil_R tao1 tao2 fadd]. now rewrite Hsum.
Qed.

Lemma season_partition_witness :
  exists (p : soil) (t1 t2 : R),
    soil_properties Barrow = Ok p
    /\ tao1 p = Fin t1 /\ tao2 p = Fin t2 /\ t1 + t2 = tao.
Proof.
  destruct (season_partition Barrow) as (p & t1 & t2 & H1 & H2 & H3 & H4 & _).
  - cbn. lra.
  - cbn. unfold Rabs. destruct (Rcase_abs (-10.81 / 19.04)); lra.
  - exists p, t1, t2. repeat split; assumption.
Defined.

Lemma veg_factor_R_zero (D t : R) : veg_factor_R 0 D t = 0.
Proof.
  unfold veg_factor_R.
  replace (-1 * 0 * sqrt (PI / (D * 2 * t))) with 0 by ring.
  rewrite exp_0. ring.
Qed.

Lemma deta_A_R_no_snow (i : site) : valid i -> Hsn i = 0 -> deta_A_R i = 0.
Proof.
  intros V H0. pose proof (mu_R_bounds i V) as Hm.
  assert (Hs : s_R i = (1 + mu_R i) * (1 + mu_R i)).
  { rewrite (s_R_fun i). unfold snow_arg. rewrite H0.
    replace (2 * 0 * sqrt (PI * Csn_R i / (tao * Ksn_R i))) with 0 by ring.
    apply s_fun_0. }
  unfold deta_A_R. rewrite Hs. rewrite sqrt_square by lra.
  field. lra.
Qed.





(** *** Vegetation: which temperature range each season damps *)

Lemma set_Hsn_same (i : site) : set_Hsn i (Hsn i) = i.
Proof. destruct i; reflexivity. Qed.

Lemma deta_Asn_R_pos (i : site) : valid i -> 0 < Hsn i -> 0 < deta_Asn_R i.
Proof.
  intros V H.
  pose proof (deta_Asn_R_increasing i V 0 (Hsn i) (Rle_refl 0) H) as Hinc.
  rewrite set_Hsn_same in Hinc.
  assert (V0 : valid (set_Hsn i 0)) by (apply valid_set_Hsn; [exact V | lra]).
  assert (E : deta_Asn_R (set_Hsn i 0) = 0).
  { unfold deta_Asn_R. rewrite (deta_A_R_no_snow _ V0) by reflexivity.
    unfold Rdiv. ring. }
  lra.
Qed.

Lemma veg_factor_R_pos (H D t : R) :
  0 < H -> 0 < D -> 0 < t -> 0 < veg_factor_R H D t.
Proof.
  intros HH HD Ht. unfold veg_factor_R.
  assert (Hs : 0 < sqrt (PI / (D * 2 * t))).
  { apply sqrt_lt_R0, Rdiv_lt_0_compat; [apply PI_RGT_0 | nra]. }
  assert (He : exp (-1 * H * sqrt (PI / (D * 2 * t))) < 1).
  { rewrite <- exp_0. apply exp_increasing. nra. }
  lra.
Qed.

Lemma snow_adjusted_range_smaller (i : site) :
  valid i -> 0 < Hsn i ->
  Avg_R i - Rabs (Tvg_R i) < Aa i - Rabs (Ta i).
Proof.
  intros V H. pose proof (deta_Asn_R_pos i V H) as HD.
  pose proof PI_bounds as [Hp _].
  assert (HP : 0 < 2 / PI < 1).
  { split; [apply Rdiv_lt_0_compat; lra |].
    apply Rmult_lt_reg_r with PI; [lra |].
    unfold Rdiv. rewrite Rmult_assoc, Rinv_l by lra. lra. }
  unfold Avg_R, Tvg_R, deta_Tsn_R.
  set (P := 2 / PI) in *. set (D := deta_Asn_R i) in *.
  pose proof (Rabs_triang_inv (Ta i) (Ta i + P * D)) as Ht.
  replace (Ta i - (Ta i + P * D)) with (- (P * D)) in Ht by ring.
  assert (HPD : 0 <= P * D) by (apply Rmult_le_pos; lra).
  rewrite Rabs_Ropp, (Rabs_pos_eq (P * D)) in Ht by exact HPD.
  assert (P * D < D) by (rewrite <- (Rmult_1_l D) at 2; apply Rmult_lt_compat_r; lra).
  lra.
Qed.

Lemma tundra_valid : valid tundra.
Proof.
  constructor; cbn; try lra.
  unfold Rabs. destruct (Rcase_abs (-10.81)); lra.
Qed.

(** How the stage forms its two seasonal terms, on any input. *)
Lemma vegetation_ranges (i : site) (p : soil) (w : snow) :
  let v := vegetation_effect i p w in
  Tvg v = fadd (Fin (Ta i)) (deta_Tsn w)
  /\ Avg v = fsub (Fin (Aa i)) (deta_Asn w)
  /\ deta_A1 v
     = fmul (fsub (Avg v) (fabs (Tvg v)))
         (veg_factor (Hvg1 i) (Dvf i) (tao1 p))
  /\ deta_A2 v
     = fmul (fsub (Fin (Aa i)) (fabs (Fin (Ta i))))
         (veg_factor (Hvg2 i) (Dvt i) (tao2 p)).
Proof. intros v. repeat split; reflexivity. Qed.

(** C8 (vegetation stage).  At a site with snow and summer vegetation the
    script applies the winter factor to the snow-adjusted range
    [Avg - |Tvg|], but the summer factor to the raw air range [Aa - |Ta|]:
    [deta_A2] differs from the factor
    [1 - exp(-Hvg2*sqrt(pi/(2*Dvt*tao2)))] applied to [Avg - |Tvg|], which
    is what the claim requires of it. *)
Theorem summer_range_not_snow_adjusted :
  exists o : output,
    permafrost_model tundra = Ok o
    /\ deta_A1 (out_veg o)
       = fmul (fsub (Avg (out_veg o)) (fabs (Tvg (out_veg o))))
           (veg_factor (Hvg1 tundra) (Dvf tundra) (tao1 (out_soil o)))
    /\ deta_A2 (out_veg o)
       = fmul (fsub (Fin (Aa tundra)) (fabs (Fin (Ta tundra))))
           (veg_factor (Hvg2 tundra) (Dvt tundra) (tao2 (out_soil o)))
    /\ deta_A2 (out_veg o)
       <> fmul (fsub (Avg (out_veg o)) (fabs (Tvg (out_veg o))))
            (veg_factor (Hvg2 tundra) (Dvt tundra) (tao2 (out_soil o))).
Proof.
  pose proof tundra_valid as V.
  destruct (permafrost_model_valid tundra V) as (x & _ & E).
  eexists. split; [exact E |].
  cbn [out_veg out_soil].
  rewrite <- (vegetation_effect_valid tundra V).
  destruct (vegetation_ranges tundra (soil_R tundra) (snow_R tundra))
    as (_ & _ & E1 & E2).
  split; [exact E1 |]. split; [exact E2 |].
  rewrite (vegetation_effect_valid tundra V).
  cbn [vegetation_R soil_R deta_A2 Avg Tvg tao2].
  pose proof (tao2_R_bounds tundra V) as [Ht _].
  rewrite veg_factor_defined by (first [exact Ht | cbn; lra]).
  autorewrite with fin. intros [= H].
  assert (Hf : 0 < veg_factor_R (Hvg2 tundra) (Dvt tundra) (tao2_R tundra)).
  { apply veg_factor_R_pos; [cbn; lra | cbn; lra | exact Ht]. }
  assert (Hr : Avg_R tundra - Rabs (Tvg_R tundra) < Aa tundra - Rabs (Ta tundra)).
  { apply snow_adjusted_range_smaller; [exact V | cbn; lra]. }
  unfold deta_A2_R in H.
  change (veg_factor_R 0.2 5.56E-8 (tao2_R tundra))
    with (veg_factor_R (Hvg2 tundra) (Dvt tundra) (tao2_R tundra)) in H.
  apply Rmult_eq_reg_r in H; lra.
Qed.

(** ** The reference site, number by number *)

Lemma root_900 : 1.9743504856 <= Rpower 900 (/ 10) <= 1.9743504861.
Proof. apply tenth_root_enclosure; lra. Qed.

Lemma root_690 : 1.9225821641 <= Rpower 690 (/ 10) <= 1.9225821646.
Proof. apply tenth_root_enclosure; lra. Qed.

Lemma root_730 : 1.9334470639 <= Rpower 730 (/ 10) <= 1.9334470643.
Proof. apply tenth_root_enclosure; lra. Qed.

Lemma root_1500 : 2.0778257585 <= Rpower 1500 (/ 10) <= 2.077825759.
Proof. apply tenth_root_enclosure; lra. Qed.

Lemma root_1300 : 2.0483036325 <= Rpower 1300 (/ 10) <= 2.048303633.
Proof. apply tenth_root_enclosure; lra. Qed.

Lemma root_1400 : 2.0635395808 <= Rpower 1400 (/ 10) <= 2.0635395814.
Proof. apply tenth_root_enclosure; lra. Qed.

Lemma root_Kt_Silt : 1.0396309546 <= Rpower 1.475 (/ 10) <= 1.0396309549.
Proof. apply tenth_root_enclosure; lra. Qed.

Lemma root_Kt_Clay : 1.0265836312 <= Rpower 1.3 (/ 10) <= 1.0265836315.
Proof. apply tenth_root_enclosure; lra. Qed.

Lemma root_Kt_Sand : 1.0481223893 <= Rpower 1.6 (/ 10) <= 1.0481223896.
Proof. apply tenth_root_enclosure; lra. Qed.

Lemma root_Kf_Silt : 1.0620043284 <= Rpower 1.825 (/ 10) <= 1.0620043288.
Proof. apply tenth_root_enclosure; lra. Qed.

Lemma root_Kf_Clay : 1.0464730678 <= Rpower 1.575 (/ 10) <= 1.0464730681.
Proof. apply tenth_root_enclosure; lra. Qed.

Lemma root_Kf_Sand : 1.069063399 <= Rpower 1.95 (/ 10) <= 1.0690633993.
Proof. apply tenth_root_enclosure; lra. Qed.

Lemma Heat_Capacity_B : 720.66024152 <= Heat_Capacity_R Barrow <= 720.66024332.
Proof.
  unfold Heat_Capacity_R, Heat_Capacity_Clay, Heat_Capacity_Sand, Heat_Capacity_Silt.
  cbn [percent_clay percent_sand percent_silt Barrow].
  replace 0.10 with (INR 1 / 10) by (simpl; lra).
  replace 0.60 with (INR 6 / 10) by (simpl; lra).
  replace 0.30 with (INR 3 / 10) by (simpl; lra).
  rewrite !Rpower_tenths by lra.
  pose proof root_900.
  pose proof root_690.
  pose proof root_730.
  assert (B1 : 1.9743504856 <= ((Rpower 900 (/ 10)) ^ 1) <= 1.9743504861)
    by (generalize (pow_enclosure (Rpower 900 (/ 10)) 1.9743504856 1.9743504861 1 ltac:(lra) ltac:(lra)); lra).
  assert (B2 : 50.502101931 <= ((Rpower 690 (/ 10)) ^ 6) <= 50.502102011)
    by (generalize (pow_enclosure (Rpower 690 (/ 10)) 1.9225821641 1.9225821646 6 ltac:(lra) ltac:(lra)); lra).
  assert (B3 : 7.2276457441 <= ((Rpower 730 (/ 10)) ^ 3) <= 7.2276457487)
    by (generalize (pow_enclosure (Rpower 730 (/ 10)) 1.9334470639 1.9334470643 3 ltac:(lra) ltac:(lra)); lra).
  assert (B4 : 99.708849471 <= (((Rpower 900 (/ 10)) ^ 1) * ((Rpower 690 (/ 10)) ^ 6)) <= 99.708849655)
    by (generalize (mul_pp ((Rpower 900 (/ 10)) ^ 1) ((Rpower 690 (/ 10)) ^ 6) 1.9743504856 1.9743504861 50.502101931 50.502102011 ltac:(lra) ltac:(lra) ltac:(lra) ltac:(lra)); lra).
  assert (B5 : 720.66024152 <= ((((Rpower 900 (/ 10)) ^ 1) * ((Rpower 690 (/ 10)) ^ 6)) * ((Rpower 730 (/ 10)) ^ 3)) <= 720.66024332)
    by (generalize (mul_pp (((Rpower 900 (/ 10)) ^ 1) * ((Rpower 690 (/ 10)) ^ 6)) ((Rpower 730 (/ 10)) ^ 3) 99.708849471 99.708849655 7.2276457441 7.2276457487 ltac:(lra) ltac:(lra) ltac:(lra) ltac:(lra)); lra).
  lra.
Qed.

Lemma Bulk_Density_B : 1348.3838663 <= Bulk_Density_R Barrow <= 1348.3838701.
Proof.
  unfold Bulk_Density_R, Bulk_Density_Clay, Bulk_Density_Sand, Bulk_Density_Silt.
  cbn [percent_clay percent_sand percent_silt Barrow].
  replace 0.10 with (INR 1 / 10) by (simpl; lra).
  replace 0.60 with (INR 6 / 10) by (simpl; lra).
  replace 0.30 with (INR 3 / 10) by (simpl; lra).
  rewrite !Rpower_tenths by lra.
  pose proof root_1500.
  pose proof root_1300.
  pose proof root_1400.
  assert (B1 : 2.0778257585 <= ((Rpower 1500 (/ 10)) ^ 1) <= 2.077825759)
    by (generalize (pow_enclosure (Rpower 1500 (/ 10)) 2.0778257585 2.077825759 1 ltac:(lra) ltac:(lra)); lra).
  assert (B2 : 73.852637709 <= ((Rpower 1300 (/ 10)) ^ 6) <= 73.852637819)
    by (generalize (pow_enclosure (Rpower 1300 (/ 10)) 2.0483036325 2.048303633 6 ltac:(lra) ltac:(lra)); lra).
  assert (B3 : 8.7869551665 <= ((Rpower 1400 (/ 10)) ^ 3) <= 8.7869551743)
    by (generalize (pow_enclosure (Rpower 1400 (/ 10)) 2.0635395808 2.0635395814 3 ltac:(lra) ltac:(lra)); lra).
  assert (B4 : 153.45291296 <= (((Rpower 1500 (/ 10)) ^ 1) * ((Rpower 1300 (/ 10)) ^ 6)) <= 153.45291324)
    by (generalize (mul_pp ((Rpower 1500 (/ 10)) ^ 1) ((Rpower 1300 (/ 10)) ^ 6) 2.0778257585 2.077825759 73.852637709 73.852637819 ltac:(lra) ltac:(lra) ltac:(lra) ltac:(lra)); lra).
  assert (B5 : 1348.3838663 <= ((((Rpower 1500 (/ 10)) ^ 1) * ((Rpower 1300 (/ 10)) ^ 6)) * ((Rpower 1400 (/ 10)) ^ 3)) <= 1348.3838701)
    by (generalize (mul_pp (((Rpower 1500 (/ 10)) ^ 1) * ((Rpower 1300 (/ 10)) ^ 6)) ((Rpower 1400 (/ 10)) ^ 3) 153.45291296 153.45291324 8.7869551665 8.7869551743 ltac:(lra) ltac:(lra) ltac:(lra) ltac:(lra)); lra).
  lra.
Qed.

Lemma Kt_B : 1.5293395862 <= Kt_R Barrow <= 1.5293395912.
Proof.
  unfold Kt_R, Kt_Silt, Kt_Clay, Kt_Sand.
  cbn [percent_clay percent_sand percent_silt Barrow].
  replace ((1.05 + 1.90) / 2) with 1.475 by lra.
  replace ((0.90 + 1.70) / 2) with 1.3 by lra.
  replace ((1.05 + 2.15) / 2) with 1.6 by lra.
  replace 0.10 with (INR 1 / 10) by (simpl; lra).
  replace 0.60 with (INR 6 / 10) by (simpl; lra).
  replace 0.30 with (INR 3 / 10) by (simpl; lra).
  rewrite !Rpower_tenths by lra.
  pose proof root_Kt_Silt.
  pose proof root_Kt_Clay.
  pose proof root_Kt_Sand.
  assert (B1 : 1.1236669463 <= ((Rpower 1.475 (/ 10)) ^ 3) <= 1.1236669474)
    by (generalize (pow_enclosure (Rpower 1.475 (/ 10)) 1.0396309546 1.0396309549 3 ltac:(lra) ltac:(lra)); lra).
  assert (B2 : 1.0265836312 <= ((Rpower 1.3 (/ 10)) ^ 1) <= 1.0265836315)
    by (generalize (pow_enclosure (Rpower 1.3 (/ 10)) 1.0265836312 1.0265836315 1 ltac:(lra) ltac:(lra)); lra).
  assert (B3 : 1.3257816056 <= ((Rpower 1.6 (/ 10)) ^ 6) <= 1.325781608)
    by (generalize (pow_enclosure (Rpower 1.6 (/ 10)) 1.0481223893 1.0481223896 6 ltac:(lra) ltac:(lra)); lra).
  assert (B4 : 1.1535380939 <= (((Rpower 1.475 (/ 10)) ^ 3) * ((Rpower 1.3 (/ 10)) ^ 1)) <= 1.1535380955)
    by (generalize (mul_pp ((Rpower 1.475 (/ 10)) ^ 3) ((Rpower 1.3 (/ 10)) ^ 1) 1.1236669463 1.1236669474 1.0265836312 1.0265836315 ltac:(lra) ltac:(lra) ltac:(lra) ltac:(lra)); lra).
  assert (B5 : 1.5293395862 <= ((((Rpower 1.475 (/ 10)) ^ 3) * ((Rpower 1.3 (/ 10)) ^ 1)) * ((Rpower 1.6 (/ 10)) ^ 6)) <= 1.5293395912)
    by (generalize (mul_pp (((Rpower 1.475 (/ 10)) ^ 3) * ((Rpower 1.3 (/ 10)) ^ 1)) ((Rpower 1.6 (/ 10)) ^ 6) 1.1535380939 1.1535380955 1.3257816056 1.325781608 ltac:(lra) ltac:(lra) ltac:(lra) ltac:(lra)); lra).
  lra.
Qed.

Lemma Kf_B : 1.8712322015 <= Kf_R Barrow <= 1.8712322077.
Proof.
  unfold Kf_R, Kf_Silt, Kf_Clay, Kf_Sand.
  cbn [percent_clay percent_sand percent_silt Barrow].
  replace ((1.25 + 2.40) / 2) with 1.825 by lra.
  replace ((1.15 + 2.00) / 2) with 1.575 by lra.
  replace ((1.25 + 2.65) / 2) with 1.95 by lra.
  replace 0.10 with (INR 1 / 10) by (simpl; lra).
  replace 0.60 with (INR 6 / 10) by (simpl; lra).
  replace 0.30 with (INR 3 / 10) by (simpl; lra).
  rewrite !Rpower_tenths by lra.
  pose proof root_Kf_Silt.
  pose proof root_Kf_Clay.
  pose proof root_Kf_Sand.
  assert (B1 : 1.1977849733 <= ((Rpower 1.825 (/ 10)) ^ 3) <= 1.1977849747)
    by (generalize (pow_enclosure (Rpower 1.825 (/ 10)) 1.0620043284 1.0620043288 3 ltac:(lra) ltac:(lra)); lra).
  assert (B2 : 1.0464730678 <= ((Rpower 1.575 (/ 10)) ^ 1) <= 1.0464730681)
    by (generalize (pow_enclosure (Rpower 1.575 (/ 10)) 1.0464730678 1.0464730681 1 ltac:(lra) ltac:(lra)); lra).
  assert (B3 : 1.4928657914 <= ((Rpower 1.95 (/ 10)) ^ 6) <= 1.492865794)
    by (generalize (pow_enclosure (Rpower 1.95 (/ 10)) 1.069063399 1.0690633993 6 ltac:(lra) ltac:(lra)); lra).
  assert (B4 : 1.2534497155 <= (((Rpower 1.825 (/ 10)) ^ 3) * ((Rpower 1.575 (/ 10)) ^ 1)) <= 1.2534497174)
    by (generalize (mul_pp ((Rpower 1.825 (/ 10)) ^ 3) ((Rpower 1.575 (/ 10)) ^ 1) 1.1977849733 1.1977849747 1.0464730678 1.0464730681 ltac:(lra) ltac:(lra) ltac:(lra) ltac:(lra)); lra).
  assert (B5 : 1.8712322015 <= ((((Rpower 1.825 (/ 10)) ^ 3) * ((Rpower 1.575 (/ 10)) ^ 1)) * ((Rpower 1.95 (/ 10)) ^ 6)) <= 1.8712322077)
    by (generalize (mul_pp (((Rpower 1.825 (/ 10)) ^ 3) * ((Rpower 1.575 (/ 10)) ^ 1)) ((Rpower 1.95 (/ 10)) ^ 6) 1.2534497155 1.2534497174 1.4928657914 1.492865794 ltac:(lra) ltac:(lra) ltac:(lra) ltac:(lra)); lra).
  lra.
Qed.

Lemma Cf_B : 972556.89274 <= Cf_R Barrow <= 972556.89792.
Proof.
  unfold Cf_R.
  cbn [rho_sn Hvg1 Hvg2 Dvf Dvt Ta Aa Hsn W_vol Barrow].
  pose proof Heat_Capacity_B.
  pose proof Bulk_Density_B.
  assert (B1 : 971726.64274 <= ((Heat_Capacity_R Barrow) * (Bulk_Density_R Barrow)) <= 971726.64792)
    by (generalize (mul_pp (Heat_Capacity_R Barrow) (Bulk_Density_R Barrow) 720.66024152 720.66024332 1348.3838663 1348.3838701 ltac:(lra) ltac:(lra) ltac:(lra) ltac:(lra)); lra).
  lra.
Qed.

Lemma Ct_B : 973444.54274 <= Ct_R Barrow <= 973444.54792.
Proof.
  unfold Ct_R.
  cbn [rho_sn Hvg1 Hvg2 Dvf Dvt Ta Aa Hsn W_vol Barrow].
  pose proof Heat_Capacity_B.
  pose proof Bulk_Density_B.
  assert (B1 : 971726.64274 <= ((Heat_Capacity_R Barrow) * (Bulk_Density_R Barrow)) <= 971726.64792)
    by (generalize (mul_pp (Heat_Capacity_R Barrow) (Bulk_Density_R Barrow) 720.66024152 720.66024332 1348.3838663 1348.3838701 ltac:(lra) ltac:(lra) ltac:(lra) ltac:(lra)); lra).
  lra.
Qed.

Lemma Ksn_B : Ksn_R Barrow = 0.0818208.
Proof. unfold Ksn_R. cbn [rho_sn Hvg1 Hvg2 Dvf Dvt Ta Aa Hsn W_vol Barrow]. lra. Qed.

Lemma Csn_B : Csn_R Barrow = 501600.
Proof. unfold Csn_R. cbn [rho_sn Hvg1 Hvg2 Dvf Dvt Ta Aa Hsn W_vol Barrow]. lra. Qed.

Lemma L_B : L_R Barrow = 137350000.
Proof. unfold L_R. cbn [rho_sn Hvg1 Hvg2 Dvf Dvt Ta Aa Hsn W_vol Barrow]. lra. Qed.

Lemma tao_value : tao = 31536000.
Proof. unfold tao. lra. Qed.

Lemma Rabs_Ta_B : Rabs (-10.81) = 10.81.
Proof. rewrite Rabs_left1 by lra. lra. Qed.

Lemma asin_ratio_B : (-0.60377262565) <= asin (Ta Barrow / Aa Barrow) <= (-0.60377258995).
Proof.
  cbn [rho_sn Hvg1 Hvg2 Dvf Dvt Ta Aa Hsn W_vol Barrow].
  assert (B1 : (-0.60377262565) <= (asin (-10.81 / 19.04)) <= (-0.60377258995))
    by (generalize (asin_enclosure_neg (-10.81 / 19.04) (1081 / 1904) (1081 / 1904) 0.60377258995 0.60377262565 ltac:(lra) ltac:(lra) ltac:(lra) ltac:(lra) ltac:(lra) ltac:(lra) ltac:(simpl pow; lra) ltac:(simpl pow; lra)); lra).
  lra.
Qed.

Lemma tao1_B : 21828802.419 <= tao1_R Barrow <= 21828802.799.
Proof.
  unfold tao1_R.
  rewrite tao_value.
  pose proof asin_ratio_B.
  pose proof PI_bounds.
  assert (B1 : 0.31830988553 <= (/ PI) <= 0.31830988655)
    by (generalize (inv_p PI 3.14159265 3.14159266 ltac:(lra) ltac:(lra)); lra).
  assert (B2 : 0.31830988553 <= (1 / PI) <= 0.31830988655)
    by (unfold Rdiv at 1 2; generalize (mul_pp 1 (/ PI) 1 1 0.31830988553 0.31830988655 ltac:(lra) ltac:(lra) ltac:(lra) ltac:(lra)); lra).
  assert (B3 : (-0.19218679598) <= ((1 / PI) * (asin (Ta Barrow / Aa Barrow))) <= (-0.19218678399))
    by (generalize (mul_pn (1 / PI) (asin (Ta Barrow / Aa Barrow)) 0.31830988553 0.31830988655 (-0.60377262565) (-0.60377258995) ltac:(lra) ltac:(lra) ltac:(lra) ltac:(lra)); lra).
  lra.
Qed.

Lemma tao2_B : 9707197.201 <= tao2_R Barrow <= 9707197.581.
Proof.
  unfold tao2_R.
  rewrite tao_value.
  pose proof tao1_B.
  lra.
Qed.

Lemma alpha_B : 0.26963936276 <= alpha_R Barrow <= 0.2696393642.
Proof.
  unfold alpha_R.
  rewrite L_B.
  cbn [rho_sn Hvg1 Hvg2 Dvf Dvt Ta Aa Hsn W_vol Barrow].
  pose proof Cf_B.
  lra.
Qed.

Lemma beta_B : 0.15308831467 <= beta_R Barrow <= 0.1530883155.
Proof.
  unfold beta_R.
  rewrite L_B.
  cbn [rho_sn Hvg1 Hvg2 Dvf Dvt Ta Aa Hsn W_vol Barrow].
  rewrite Rabs_Ta_B.
  pose proof Cf_B.
  lra.
Qed.

Lemma Cef_B : 5594343.0242 <= Cef_R Barrow <= 5594344.3171.
Proof.
  unfold Cef_R.
  pose proof Cf_B.
  pose proof alpha_B.
  pose proof beta_B.
  assert (B1 : 0.86723626157 <= (/ ((beta_R Barrow) + 1)) <= 0.8672362622)
    by (generalize (inv_p ((beta_R Barrow) + 1) 1.15308831467 1.1530883155 ltac:(lra) ltac:(lra)); lra).
  assert (B2 : 1.1010772945 <= (((alpha_R Barrow) + 1) / ((beta_R Barrow) + 1)) <= 1.1010772966)
    by (unfold Rdiv at 1 2; generalize (mul_pp ((alpha_R Barrow) + 1) (/ ((beta_R Barrow) + 1)) 1.26963936276 1.2696393642 0.86723626157 0.8672362622 ltac:(lra) ltac:(lra) ltac:(lra) ltac:(lra)); lra).
  assert (B3 : 0.096289059181 <= (ln (((alpha_R Barrow) + 1) / ((beta_R Barrow) + 1))) <= 0.09628906109).
  { split.
    - assert (Hp : 0 < exp_poly 7 (Ropp 0.096289059181)) by (cbn [exp_poly exp_term]; simpl INR; lra).
      apply (ln_lower 7 0.096289059181 (((alpha_R Barrow) + 1) / ((beta_R Barrow) + 1))); [lra | reflexivity | exact Hp |].
      apply Rle_trans with 1.1010772945; [| lra].
      apply Rmult_le_reg_r with (exp_poly 7 (Ropp 0.096289059181)); [exact Hp |].
      rewrite Rinv_l by lra. cbn [exp_poly exp_term]; simpl INR; lra.
    - apply (ln_upper 7 0.09628906109 (((alpha_R Barrow) + 1) / ((beta_R Barrow) + 1))); [lra | lra |].
      apply Rle_trans with 1.1010772966; [lra |].
      cbn [exp_poly exp_term]; simpl INR; lra. }
  assert (B4 : 49.353493056 <= (/ (((alpha_R Barrow) - (beta_R Barrow)) - (ln (((alpha_R Barrow) + 1) / ((beta_R Barrow) + 1))))) <= 49.353503236)
    by (generalize (inv_p (((alpha_R Barrow) - (beta_R Barrow)) - (ln (((alpha_R Barrow) + 1) / ((beta_R Barrow) + 1)))) 0.02026198617 0.020261990349 ltac:(lra) ltac:(lra)); lra).
  assert (B5 : 5.7522013016 <= (((alpha_R Barrow) - (beta_R Barrow)) / (((alpha_R Barrow) - (beta_R Barrow)) - (ln (((alpha_R Barrow) + 1) / ((beta_R Barrow) + 1))))) <= 5.7522026002)
    by (unfold Rdiv at 1 2; generalize (mul_pp ((alpha_R Barrow) - (beta_R Barrow)) (/ (((alpha_R Barrow) - (beta_R Barrow)) - (ln (((alpha_R Barrow) + 1) / ((beta_R Barrow) + 1))))) 0.11655104726 0.11655104953 49.353493056 49.353503236 ltac:(lra) ltac:(lra) ltac:(lra) ltac:(lra)); lra).
  assert (B6 : 5594343.0242 <= ((Cf_R Barrow) * (((alpha_R Barrow) - (beta_R Barrow)) / (((alpha_R Barrow) - (beta_R Barrow)) - (ln (((alpha_R Barrow) + 1) / ((beta_R Barrow) + 1)))))) <= 5594344.3171)
    by (generalize (mul_pp (Cf_R Barrow) (((alpha_R Barrow) - (beta_R Barrow)) / (((alpha_R Barrow) - (beta_R Barrow)) - (ln (((alpha_R Barrow) + 1) / ((beta_R Barrow) + 1))))) 972556.89274 972556.89792 5.7522013016 5.7522026002 ltac:(lra) ltac:(lra) ltac:(lra) ltac:(lra)); lra).
  lra.
Qed.

Lemma snow_admittance_B : 202.5865575 <= sqrt (Ksn_R Barrow * Csn_R Barrow) <= 202.58655751.
Proof.
  rewrite Ksn_B, Csn_B.
  replace (0.0818208 * 501600) with 41041.31328 by lra.
  assert (B1 : 202.5865575 <= (sqrt 41041.31328) <= 202.58655751)
    by (apply sqrt_enclosure; lra).
  lra.
Qed.

Lemma ground_admittance_B : 3235.4775247 <= sqrt (Kf_R Barrow * Cef_R Barrow) <= 3235.4779042.
Proof.
  pose proof Kf_B.
  pose proof Cef_B.
  assert (B1 : 10468314.813 <= ((Kf_R Barrow) * (Cef_R Barrow)) <= 10468317.268)
    by (generalize (mul_pp (Kf_R Barrow) (Cef_R Barrow) 1.8712322015 1.8712322077 5594343.0242 5594344.3171 ltac:(lra) ltac:(lra) ltac:(lra) ltac:(lra)); lra).
  assert (B2 : 3235.4775247 <= (sqrt ((Kf_R Barrow) * (Cef_R Barrow))) <= 3235.4779042)
    by (apply sqrt_enclosure; lra).
  lra.
Qed.

Lemma mu_B : (-0.88215090651) <= mu_R Barrow <= (-0.88215069873).
Proof.
  unfold mu_R.
  pose proof snow_admittance_B.
  pose proof ground_admittance_B.
  assert (B1 : 0.00029086132943 <= (/ ((sqrt (Ksn_R Barrow * Csn_R Barrow)) + (sqrt (Kf_R Barrow * Cef_R Barrow)))) <= 0.00029086136154)
    by (generalize (inv_p ((sqrt (Ksn_R Barrow * Csn_R Barrow)) + (sqrt (Kf_R Barrow * Cef_R Barrow))) 3438.0640822 3438.06446171 ltac:(lra) ltac:(lra)); lra).
  assert (B2 : (-0.88215090651) <= (((sqrt (Ksn_R Barrow * Csn_R Barrow)) - (sqrt (Kf_R Barrow * Cef_R Barrow))) / ((sqrt (Ksn_R Barrow * Csn_R Barrow)) + (sqrt (Kf_R Barrow * Cef_R Barrow)))) <= (-0.88215069873))
    by (unfold Rdiv at 1 2; generalize (mul_np ((sqrt (Ksn_R Barrow * Csn_R Barrow)) - (sqrt (Kf_R Barrow * Cef_R Barrow))) (/ ((sqrt (Ksn_R Barrow * Csn_R Barrow)) + (sqrt (Kf_R Barrow * Cef_R Barrow)))) (-3032.8913467) (-3032.89096719) 0.00029086132943 0.00029086136154 ltac:(lra) ltac:(lra) ltac:(lra) ltac:(lra)); lra).
  lra.
Qed.

Lemma snow_arg_B : 0.43762947309 <= snow_arg Barrow <= 0.4376294738.
Proof.
  unfold snow_arg.
  rewrite Ksn_B, Csn_B, tao_value.
  cbn [rho_sn Hvg1 Hvg2 Dvf Dvt Ta Aa Hsn W_vol Barrow].
  pose proof PI_bounds.
  assert (B1 : 0.78148120196 <= (sqrt ((PI * 501600) / (31536000 * 0.0818208))) <= 0.78148120321)
    by (apply sqrt_enclosure; lra).
  lra.
Qed.

Lemma s_B : 0.45337099781 <= s_R Barrow <= 0.45337167238.
Proof.
  rewrite (s_R_fun Barrow).
  unfold s_fun.
  rewrite exp_Ropp.
  pose proof snow_arg_B.
  pose proof mu_B.
  assert (B1 : 1.5490308433 <= (exp (snow_arg Barrow)) <= 1.5490308448).
  { split.
    - generalize (exp_lower 9 0.43762947309 (snow_arg Barrow) ltac:(lra) ltac:(lra)).
      cbn [exp_poly exp_term]; simpl INR; lra.
    - assert (Hp : 0 < exp_poly 9 (Ropp 0.4376294738)) by (cbn [exp_poly exp_term]; simpl INR; lra).
      generalize (exp_upper 9 0.4376294738 (snow_arg Barrow) ltac:(lra) ltac:(lra) eq_refl Hp).
      assert (Hq : / exp_poly 9 (Ropp 0.4376294738) <= 1.5490308448).
      { apply Rmult_le_reg_r with (exp_poly 9 (Ropp 0.4376294738)); [exact Hp |].
        rewrite Rinv_l by lra. cbn [exp_poly exp_term]; simpl INR; lra. }
      lra. }
  assert (B2 : 0.90575878756 <= (cos (snow_arg Barrow)) <= 0.90575882124)
    by (generalize (cos_enclosure_interval (snow_arg Barrow) 0.43762947309 0.4376294738 ltac:(lra) ltac:(lra) ltac:(lra)); simpl pow; lra).
  assert (B3 : (-1.5980319305) <= ((2 * (mu_R Barrow)) * (cos (snow_arg Barrow))) <= (-1.5980314946))
    by (generalize (mul_np (2 * (mu_R Barrow)) (cos (snow_arg Barrow)) (-1.76430181302) (-1.76430139746) 0.90575878756 0.90575882124 ltac:(lra) ltac:(lra) ltac:(lra) ltac:(lra)); lra).
  assert (B4 : 0.64556493717 <= (/ (exp (snow_arg Barrow))) <= 0.6455649378)
    by (generalize (inv_p (exp (snow_arg Barrow)) 1.5490308433 1.5490308448 ltac:(lra) ltac:(lra)); lra).
  assert (B5 : 0.77818985526 <= ((mu_R Barrow) * (mu_R Barrow)) <= 0.77819022186)
    by (generalize (mul_nn (mu_R Barrow) (mu_R Barrow) (-0.88215090651) (-0.88215069873) (-0.88215090651) (-0.88215069873) ltac:(lra) ltac:(lra) ltac:(lra) ltac:(lra)); lra).
  assert (B6 : 0.50237208501 <= (((mu_R Barrow) * (mu_R Barrow)) * (/ (exp (snow_arg Barrow)))) <= 0.50237232218)
    by (generalize (mul_pp ((mu_R Barrow) * (mu_R Barrow)) (/ (exp (snow_arg Barrow))) 0.77818985526 0.77819022186 0.64556493717 0.6455649378 ltac:(lra) ltac:(lra) ltac:(lra) ltac:(lra)); lra).
  lra.
Qed.

Lemma deta_A_B : 15.707523553 <= deta_A_R Barrow <= 15.707531909.
Proof.
  unfold deta_A_R.
  cbn [rho_sn Hvg1 Hvg2 Dvf Dvt Ta Aa Hsn W_vol Barrow].
  pose proof s_B.
  pose proof mu_B.
  assert (B1 : 0.67332829868 <= (sqrt (s_R Barrow)) <= 0.67332879961)
    by (apply sqrt_enclosure; lra).
  assert (B2 : 1.4851585147 <= (/ (sqrt (s_R Barrow))) <= 1.4851596197)
    by (generalize (inv_p (sqrt (s_R Barrow)) 0.67332829868 0.67332879961 ltac:(lra) ltac:(lra)); lra).
  assert (B3 : 0.17502458464 <= ((1 + (mu_R Barrow)) / (sqrt (s_R Barrow))) <= 0.17502502346)
    by (unfold Rdiv at 1 2; generalize (mul_pp (1 + (mu_R Barrow)) (/ (sqrt (s_R Barrow))) 0.11784909349 0.11784930127 1.4851585147 1.4851596197 ltac:(lra) ltac:(lra) ltac:(lra) ltac:(lra)); lra).
  lra.
Qed.

Lemma deta_Asn_B : 5.436270106 <= deta_Asn_R Barrow <= 5.4362730929.
Proof.
  unfold deta_Asn_R.
  rewrite tao_value.
  pose proof deta_A_B.
  pose proof tao1_B.
  assert (B1 : 342876428.13 <= ((deta_A_R Barrow) * (tao1_R Barrow)) <= 342876616.51)
    by (generalize (mul_pp (deta_A_R Barrow) (tao1_R Barrow) 15.707523553 15.707531909 21828802.419 21828802.799 ltac:(lra) ltac:(lra) ltac:(lra) ltac:(lra)); lra).
  lra.
Qed.

Lemma deta_Tsn_B : 3.4608370303 <= deta_Tsn_R Barrow <= 3.460838943.
Proof.
  unfold deta_Tsn_R.
  pose proof deta_Asn_B.
  pose proof PI_bounds.
  assert (B1 : 0.31830988553 <= (/ PI) <= 0.31830988655)
    by (generalize (inv_p PI 3.14159265 3.14159266 ltac:(lra) ltac:(lra)); lra).
  assert (B2 : 0.63661977106 <= (2 / PI) <= 0.6366197731)
    by (unfold Rdiv at 1 2; generalize (mul_pp 2 (/ PI) 2 2 0.31830988553 0.31830988655 ltac:(lra) ltac:(lra) ltac:(lra) ltac:(lra)); lra).
  assert (B3 : 3.4608370303 <= ((2 / PI) * (deta_Asn_R Barrow)) <= 3.460838943)
    by (generalize (mul_pp (2 / PI) (deta_Asn_R Barrow) 0.63661977106 0.6366197731 5.436270106 5.4362730929 ltac:(lra) ltac:(lra) ltac:(lra) ltac:(lra)); lra).
  lra.
Qed.

Lemma Tvg_B : (-7.3491629697) <= Tvg_R Barrow <= (-7.349161057).
Proof.
  unfold Tvg_R.
  cbn [rho_sn Hvg1 Hvg2 Dvf Dvt Ta Aa Hsn W_vol Barrow].
  pose proof deta_Tsn_B.
  lra.
Qed.

Lemma Avg_B : 13.603726907 <= Avg_R Barrow <= 13.603729894.
Proof.
  unfold Avg_R.
  cbn [rho_sn Hvg1 Hvg2 Dvf Dvt Ta Aa Hsn W_vol Barrow].
  pose proof deta_Asn_B.
  lra.
Qed.

Lemma deta_A1_B : deta_A1_R Barrow = 0.
Proof. unfold deta_A1_R. cbn [Hvg1 Barrow]. rewrite veg_factor_R_zero. ring. Qed.

Lemma deta_A2_B : deta_A2_R Barrow = 0.
Proof. unfold deta_A2_R. cbn [Hvg2 Barrow]. rewrite veg_factor_R_zero. ring. Qed.

Lemma Tgs_Tvg_B : Tgs_R Barrow = Tvg_R Barrow.
Proof.
  unfold Tgs_R, deta_Tv_R. rewrite deta_A1_B, deta_A2_B. unfold Rdiv. ring.
Qed.

Lemma Ags_Avg_B : Ags_R Barrow = Avg_R Barrow.
Proof.
  unfold Ags_R, deta_Av_R. rewrite deta_A1_B, deta_A2_B. unfold Rdiv. ring.
Qed.

Lemma Tgs_B : (-7.3491629697) <= Tgs_R Barrow <= (-7.349161057).
Proof. rewrite Tgs_Tvg_B. exact Tvg_B. Qed.

Lemma Ags_B : 13.603726907 <= Ags_R Barrow <= 13.603729894.
Proof. rewrite Ags_Avg_B. exact Avg_B. Qed.

Lemma ratio_B : (-0.54023158654) <= Tgs_R Barrow / Ags_R Barrow <= (-0.5402313273).
Proof.
  pose proof Tgs_B.
  pose proof Ags_B.
  assert (B1 : 0.073509251344 <= (/ (Ags_R Barrow)) <= 0.073509267486)
    by (generalize (inv_p (Ags_R Barrow) 13.603726907 13.603729894 ltac:(lra) ltac:(lra)); lra).
  assert (B2 : (-0.54023158654) <= ((Tgs_R Barrow) / (Ags_R Barrow)) <= (-0.5402313273))
    by (unfold Rdiv at 1 2; generalize (mul_np (Tgs_R Barrow) (/ (Ags_R Barrow)) (-7.3491629697) (-7.349161057) 0.073509251344 0.073509267486 ltac:(lra) ltac:(lra) ltac:(lra) ltac:(lra)); lra).
  lra.
Qed.

Lemma asin_surface_B : (-0.57071230754) <= asin (Tgs_R Barrow / Ags_R Barrow) <= (-0.57071197843).
Proof.
  pose proof ratio_B.
  assert (B1 : (-0.57071230754) <= (asin (Tgs_R Barrow / Ags_R Barrow)) <= (-0.57071197843))
    by (generalize (asin_enclosure_neg (Tgs_R Barrow / Ags_R Barrow) 0.5402313273 0.54023158654 0.57071197843 0.57071230754 ltac:(lra) ltac:(lra) ltac:(lra) ltac:(lra) ltac:(lra) ltac:(lra) ltac:(simpl pow; lra) ltac:(simpl pow; lra)); lra).
  lra.
Qed.

Lemma sqrt_arg_B : 0.94666848299 <= 1 - PI * PI / (Ags_R Barrow * Ags_R Barrow) <= 0.94666850676.
Proof.
  pose proof Ags_B.
  pose proof PI_bounds.
  assert (B1 : 9.8696043785 <= (PI * PI) <= 9.8696044414)
    by (generalize (mul_pp PI PI 3.14159265 3.14159266 3.14159265 3.14159266 ltac:(lra) ltac:(lra) ltac:(lra) ltac:(lra)); lra).
  assert (B2 : 185.06138576 <= ((Ags_R Barrow) * (Ags_R Barrow)) <= 185.06146703)
    by (generalize (mul_pp (Ags_R Barrow) (Ags_R Barrow) 13.603726907 13.603729894 13.603726907 13.603729894 ltac:(lra) ltac:(lra) ltac:(lra) ltac:(lra)); lra).
  assert (B3 : 0.0054036100331 <= (/ ((Ags_R Barrow) * (Ags_R Barrow))) <= 0.0054036124062)
    by (generalize (inv_p ((Ags_R Barrow) * (Ags_R Barrow)) 185.06138576 185.06146703 ltac:(lra) ltac:(lra)); lra).
  assert (B4 : 0.053331493242 <= ((PI * PI) / ((Ags_R Barrow) * (Ags_R Barrow))) <= 0.053331517004)
    by (unfold Rdiv at 1 2; generalize (mul_pp (PI * PI) (/ ((Ags_R Barrow) * (Ags_R Barrow))) 9.8696043785 9.8696044414 0.0054036100331 0.0054036124062 ltac:(lra) ltac:(lra) ltac:(lra) ltac:(lra)); lra).
  lra.
Qed.

Lemma sqrt_term_B : 0.97296890134 <= sqrt (1 - PI * PI / (Ags_R Barrow * Ags_R Barrow)) <= 0.97296891357.
Proof.
  pose proof sqrt_arg_B.
  assert (B1 : 0.97296890134 <= (sqrt (1 - PI * PI / (Ags_R Barrow * Ags_R Barrow))) <= 0.97296891357)
    by (apply sqrt_enclosure; lra).
  lra.
Qed.

Lemma Tps_num_bounds : (-14.392575589) <= Tps_num_B <= (-14.392571308).
Proof.
  unfold Tps_num_B, Tps_numerator_R.
  pose proof Tgs_B.
  pose proof Ags_B.
  pose proof PI_bounds.
  pose proof Kf_B.
  pose proof Kt_B.
  pose proof ratio_B.
  pose proof asin_surface_B.
  pose proof sqrt_term_B.
  assert (B1 : (-12.495678171) <= ((0.5 * (Tgs_R Barrow)) * ((Kf_R Barrow) + (Kt_R Barrow))) <= (-12.495674876))
    by (generalize (mul_np (0.5 * (Tgs_R Barrow)) ((Kf_R Barrow) + (Kt_R Barrow)) (-3.67458148485) (-3.6745805285) 3.4005717877 3.4005717989 ltac:(lra) ltac:(lra) ltac:(lra) ltac:(lra)); lra).
  assert (B2 : (-4.6510148757) <= ((Ags_R Barrow) * ((Kt_R Barrow) - (Kf_R Barrow))) <= (-4.651013702))
    by (generalize (mul_pn (Ags_R Barrow) ((Kt_R Barrow) - (Kf_R Barrow)) 13.603726907 13.603729894 (-0.3418926215) (-0.3418926103) ltac:(lra) ltac:(lra) ltac:(lra) ltac:(lra)); lra).
  assert (B3 : 0.31830988553 <= (/ PI) <= 0.31830988655)
    by (generalize (inv_p PI 3.14159265 3.14159266 ltac:(lra) ltac:(lra)); lra).
  assert (B4 : (-1.4804640175) <= (((Ags_R Barrow) * ((Kt_R Barrow) - (Kf_R Barrow))) / PI) <= (-1.480463639))
    by (unfold Rdiv at 1 2; generalize (mul_np ((Ags_R Barrow) * ((Kt_R Barrow) - (Kf_R Barrow))) (/ PI) (-4.6510148757) (-4.651013702) 0.31830988553 0.31830988655 ltac:(lra) ltac:(lra) ltac:(lra) ltac:(lra)); lra).
  assert (B5 : 0.30831648961 <= ((Tgs_R Barrow / Ags_R Barrow) * (asin (Tgs_R Barrow / Ags_R Barrow))) <= 0.30831681537)
    by (generalize (mul_nn (Tgs_R Barrow / Ags_R Barrow) (asin (Tgs_R Barrow / Ags_R Barrow)) (-0.54023158654) (-0.5402313273) (-0.57071230754) (-0.57071197843) ltac:(lra) ltac:(lra) ltac:(lra) ltac:(lra)); lra).
  assert (B6 : (-1.8968974179) <= ((((Ags_R Barrow) * ((Kt_R Barrow) - (Kf_R Barrow))) / PI) * (((Tgs_R Barrow / Ags_R Barrow) * (asin (Tgs_R Barrow / Ags_R Barrow))) + (sqrt (1 - PI * PI / (Ags_R Barrow * Ags_R Barrow))))) <= (-1.8968964324))
    by (generalize (mul_np (((Ags_R Barrow) * ((Kt_R Barrow) - (Kf_R Barrow))) / PI) (((Tgs_R Barrow / Ags_R Barrow) * (asin (Tgs_R Barrow / Ags_R Barrow))) + (sqrt (1 - PI * PI / (Ags_R Barrow * Ags_R Barrow)))) (-1.4804640175) (-1.480463639) 1.28128539095 1.28128572894 ltac:(lra) ltac:(lra) ltac:(lra) ltac:(lra)); lra).
  lra.
Qed.

Lemma Tps_B : (-7.6914963187) <= Tps_num_B / Kf_R Barrow <= (-7.6914940052).
Proof.
  pose proof Tps_num_bounds.
  pose proof Kf_B.
  assert (B1 : 0.53440721888 <= (/ (Kf_R Barrow)) <= 0.53440722066)
    by (generalize (inv_p (Kf_R Barrow) 1.8712322015 1.8712322077 ltac:(lra) ltac:(lra)); lra).
  assert (B2 : (-7.6914963187) <= (Tps_num_B / (Kf_R Barrow)) <= (-7.6914940052))
    by (unfold Rdiv at 1 2; generalize (mul_np Tps_num_B (/ (Kf_R Barrow)) (-14.392575589) (-14.392571308) 0.53440721888 0.53440722066 ltac:(lra) ltac:(lra) ltac:(lra) ltac:(lra)); lra).
  lra.
Qed.

Lemma T_bounds : 7.6914940052 <= T_B <= 7.6914963187.
Proof.
  pose proof Tps_B. unfold T_B. rewrite Rabs_left1 by lra. lra.
Qed.

Lemma h_bounds : 70.612835245 <= h_B <= 70.612835624.
Proof.
  unfold h_B.
  rewrite L_B.
  pose proof Cf_B.
  assert (B1 : 0.00000051410873859 <= (/ (2 * (Cf_R Barrow))) <= 0.00000051410874134)
    by (generalize (inv_p (2 * (Cf_R Barrow)) 1945113.78548 1945113.79584 ltac:(lra) ltac:(lra)); lra).
  assert (B2 : 70.612835245 <= (137350000 / (2 * (Cf_R Barrow))) <= 70.612835624)
    by (unfold Rdiv at 1 2; generalize (mul_pp 137350000 (/ (2 * (Cf_R Barrow))) 137350000 137350000 0.00000051410873859 0.00000051410874134 ltac:(lra) ltac:(lra) ltac:(lra) ltac:(lra)); lra).
  lra.
Qed.

Lemma log_arg_B : 1.0755032328 <= (Ags_R Barrow + h_B) / (T_B + h_B) <= 1.0755033129.
Proof.
  pose proof Ags_B.
  pose proof T_bounds.
  pose proof h_bounds.
  assert (B1 : 0.012770685544 <= (/ (T_B + h_B)) <= 0.012770685984)
    by (generalize (inv_p (T_B + h_B) 78.3043292502 78.3043319427 ltac:(lra) ltac:(lra)); lra).
  assert (B2 : 1.0755032328 <= (((Ags_R Barrow) + h_B) / (T_B + h_B)) <= 1.0755033129)
    by (unfold Rdiv at 1 2; generalize (mul_pp ((Ags_R Barrow) + h_B) (/ (T_B + h_B)) 84.216562152 84.216565518 0.012770685544 0.012770685984 ltac:(lra) ltac:(lra) ltac:(lra) ltac:(lra)); lra).
  lra.
Qed.

Lemma log_term_B : 0.072788675578 <= ln ((Ags_R Barrow + h_B) / (T_B + h_B)) <= 0.072788750056.
Proof.
  pose proof log_arg_B.
  assert (B1 : 0.072788675578 <= (ln ((Ags_R Barrow + h_B) / (T_B + h_B))) <= 0.072788750056).
  { split.
    - assert (Hp : 0 < exp_poly 7 (Ropp 0.072788675578)) by (cbn [exp_poly exp_term]; simpl INR; lra).
      apply (ln_lower 7 0.072788675578 ((Ags_R Barrow + h_B) / (T_B + h_B))); [lra | reflexivity | exact Hp |].
      apply Rle_trans with 1.0755032328; [| lra].
      apply Rmult_le_reg_r with (exp_poly 7 (Ropp 0.072788675578)); [exact Hp |].
      rewrite Rinv_l by lra. cbn [exp_poly exp_term]; simpl INR; lra.
    - apply (ln_upper 7 0.072788750056 ((Ags_R Barrow + h_B) / (T_B + h_B))); [lra | lra |].
      apply Rle_trans with 1.0755033129; [lra |].
      cbn [exp_poly exp_term]; simpl INR; lra. }
  lra.
Qed.

Lemma Aps_bounds : 10.611674806 <= Aps_B <= 10.61183112.
Proof.
  unfold Aps_B, Aps_R.
  pose proof Ags_B.
  pose proof T_bounds.
  pose proof h_bounds.
  pose proof log_term_B.
  assert (B1 : 13.738386759 <= (/ (ln ((Ags_R Barrow + h_B) / (T_B + h_B)))) <= 13.738400817)
    by (generalize (inv_p (ln ((Ags_R Barrow + h_B) / (T_B + h_B))) 0.072788675578 0.072788750056 ltac:(lra) ltac:(lra)); lra).
  assert (B2 : 81.22451043 <= (((Ags_R Barrow) - T_B) / (ln ((Ags_R Barrow + h_B) / (T_B + h_B)))) <= 81.224666365)
    by (unfold Rdiv at 1 2; generalize (mul_pp ((Ags_R Barrow) - T_B) (/ (ln ((Ags_R Barrow + h_B) / (T_B + h_B)))) 5.9122305883 5.9122358888 13.738386759 13.738400817 ltac:(lra) ltac:(lra) ltac:(lra) ltac:(lra)); lra).
  lra.
Qed.

Lemma denominator_B : 157990914.95 <= 2 * Aps_B * Cf_R Barrow + L_R Barrow <= 157991219.12.
Proof.
  rewrite L_B.
  pose proof Aps_bounds.
  pose proof Cf_B.
  assert (B1 : 20640914.952 <= ((2 * Aps_B) * (Cf_R Barrow)) <= 20641219.111)
    by (generalize (mul_pp (2 * Aps_B) (Cf_R Barrow) 21.223349612 21.22366224 972556.89274 972556.89792 ltac:(lra) ltac:(lra) ltac:(lra) ltac:(lra)); lra).
  lra.
Qed.

Lemma S1_arg_B : 18268354560000 <= Kf_R Barrow * tao * Cf_R Barrow / PI <= 18268354778000.
Proof.
  rewrite tao_value.
  pose proof Kf_B.
  pose proof Cf_B.
  pose proof PI_bounds.
  assert (B1 : 57391728599000 <= (((Kf_R Barrow) * 31536000) * (Cf_R Barrow)) <= 57391729096000)
    by (generalize (mul_pp ((Kf_R Barrow) * 31536000) (Cf_R Barrow) 59011178.706504 59011178.9020272 972556.89274 972556.89792 ltac:(lra) ltac:(lra) ltac:(lra) ltac:(lra)); lra).
  assert (B2 : 0.31830988553 <= (/ PI) <= 0.31830988655)
    by (generalize (inv_p PI 3.14159265 3.14159266 ltac:(lra) ltac:(lra)); lra).
  assert (B3 : 18268354560000 <= ((((Kf_R Barrow) * 31536000) * (Cf_R Barrow)) / PI) <= 18268354778000)
    by (unfold Rdiv at 1 2; generalize (mul_pp (((Kf_R Barrow) * 31536000) * (Cf_R Barrow)) (/ PI) 57391728599000 57391729096000 0.31830988553 0.31830988655 ltac:(lra) ltac:(lra) ltac:(lra) ltac:(lra)); lra).
  lra.
Qed.

Lemma S1_B : 4274149.5715 <= sqrt (Kf_R Barrow * tao * Cf_R Barrow / PI) <= 4274149.5971.
Proof.
  pose proof S1_arg_B.
  assert (B1 : 4274149.5715 <= (sqrt (Kf_R Barrow * tao * Cf_R Barrow / PI)) <= 4274149.5971)
    by (apply sqrt_enclosure; lra).
  lra.
Qed.

Lemma S2_arg_B : 19.313874158 <= Kf_R Barrow * tao / (PI * Cf_R Barrow) <= 19.313874389.
Proof.
  rewrite tao_value.
  pose proof Kf_B.
  pose proof Cf_B.
  pose proof PI_bounds.
  assert (B1 : 3055377.5859 <= (PI * (Cf_R Barrow)) <= 3055377.612)
    by (generalize (mul_pp PI (Cf_R Barrow) 3.14159265 3.14159266 972556.89274 972556.89792 ltac:(lra) ltac:(lra) ltac:(lra) ltac:(lra)); lra).
  assert (B2 : 0.00000032729178746 <= (/ (PI * (Cf_R Barrow))) <= 0.00000032729179026)
    by (generalize (inv_p (PI * (Cf_R Barrow)) 3055377.5859 3055377.612 ltac:(lra) ltac:(lra)); lra).
  assert (B3 : 19.313874158 <= (((Kf_R Barrow) * 31536000) / (PI * (Cf_R Barrow))) <= 19.313874389)
    by (unfold Rdiv at 1 2; generalize (mul_pp ((Kf_R Barrow) * 31536000) (/ (PI * (Cf_R Barrow))) 59011178.706504 59011178.9020272 0.00000032729178746 0.00000032729179026 ltac:(lra) ltac:(lra) ltac:(lra) ltac:(lra)); lra).
  lra.
Qed.

Lemma S2_B : 4.3947553012 <= sqrt (Kf_R Barrow * tao / (PI * Cf_R Barrow)) <= 4.3947553276.
Proof.
  pose proof S2_arg_B.
  assert (B1 : 4.3947553012 <= (sqrt (Kf_R Barrow * tao / (PI * Cf_R Barrow))) <= 4.3947553276)
    by (apply sqrt_enclosure; lra).
  lra.
Qed.

Lemma Zc_bounds : 0.31988813019 <= Zc_B <= 0.31988903477.
Proof.
  unfold Zc_B, Zc_R.
  pose proof Ags_B.
  pose proof T_bounds.
  pose proof S1_B.
  pose proof denominator_B.
  assert (B1 : 50539515.671 <= ((2 * ((Ags_R Barrow) - T_B)) * (sqrt (Kf_R Barrow * tao * Cf_R Barrow / PI))) <= 50539561.285)
    by (generalize (mul_pp (2 * ((Ags_R Barrow) - T_B)) (sqrt (Kf_R Barrow * tao * Cf_R Barrow / PI)) 11.8244611766 11.8244717776 4274149.5715 4274149.5971 ltac:(lra) ltac:(lra) ltac:(lra) ltac:(lra)); lra).
  assert (B2 : 0.0000000063294656853 <= (/ (2 * Aps_B * Cf_R Barrow + L_R Barrow)) <= 0.0000000063294778711)
    by (generalize (inv_p (2 * Aps_B * Cf_R Barrow + L_R Barrow) 157990914.95 157991219.12 ltac:(lra) ltac:(lra)); lra).
  assert (B3 : 0.31988813019 <= (((2 * ((Ags_R Barrow) - T_B)) * (sqrt (Kf_R Barrow * tao * Cf_R Barrow / PI))) / (2 * Aps_B * Cf_R Barrow + L_R Barrow)) <= 0.31988903477)
    by (unfold Rdiv at 1 2; generalize (mul_pp ((2 * ((Ags_R Barrow) - T_B)) * (sqrt (Kf_R Barrow * tao * Cf_R Barrow / PI))) (/ (2 * Aps_B * Cf_R Barrow + L_R Barrow)) 50539515.671 50539561.285 0.0000000063294656853 0.0000000063294778711 ltac:(lra) ltac:(lra) ltac:(lra) ltac:(lra)); lra).
  lra.
Qed.

Lemma second_denominator_B : 746732540.48 <= 2 * Ags_R Barrow * Cf_R Barrow * Zc_B + L_R Barrow * Zc_B + (2 * Aps_B * Cf_R Barrow + L_R Barrow) * sqrt (Kf_R Barrow * tao / (PI * Cf_R Barrow)) <= 746734031.51.
Proof.
  pose proof Ags_B.
  pose proof Cf_B.
  pose proof Zc_bounds.
  pose proof S2_B.
  pose proof denominator_B.
  rewrite L_B in *.
  assert (B1 : 26460796.74 <= ((2 * (Ags_R Barrow)) * (Cf_R Barrow)) <= 26460802.692)
    by (generalize (mul_pp (2 * (Ags_R Barrow)) (Cf_R Barrow) 27.207453814 27.207459788 972556.89274 972556.89792 ltac:(lra) ltac:(lra) ltac:(lra) ltac:(lra)); lra).
  assert (B2 : 8464494.7924 <= (((2 * (Ags_R Barrow)) * (Cf_R Barrow)) * Zc_B) <= 8464520.6324)
    by (generalize (mul_pp ((2 * (Ags_R Barrow)) * (Cf_R Barrow)) Zc_B 26460796.74 26460802.692 0.31988813019 0.31988903477 ltac:(lra) ltac:(lra) ltac:(lra) ltac:(lra)); lra).
  assert (B3 : 694331411.01 <= ((2 * Aps_B * Cf_R Barrow + 137350000) * (sqrt (Kf_R Barrow * tao / (PI * Cf_R Barrow)))) <= 694332751.95)
    by (generalize (mul_pp (2 * Aps_B * Cf_R Barrow + 137350000) (sqrt (Kf_R Barrow * tao / (PI * Cf_R Barrow))) 157990914.95 157991219.12 4.3947553012 4.3947553276 ltac:(lra) ltac:(lra) ltac:(lra) ltac:(lra)); lra).
  lra.
Qed.

Lemma Zal_bounds : 0.57846799701 <= Zal_B <= 0.57847114637.
Proof.
  unfold Zal_B, Zal_R.
  pose proof Ags_B.
  pose proof T_bounds.
  pose proof Cf_B.
  pose proof Zc_bounds.
  pose proof Aps_bounds.
  pose proof S1_B.
  pose proof S2_B.
  pose proof denominator_B.
  pose proof second_denominator_B.
  rewrite L_B in *.
  assert (B1 : 50539515.671 <= ((2 * ((Ags_R Barrow) - T_B)) * (sqrt (Kf_R Barrow * tao * Cf_R Barrow / PI))) <= 50539561.285)
    by (generalize (mul_pp (2 * ((Ags_R Barrow) - T_B)) (sqrt (Kf_R Barrow * tao * Cf_R Barrow / PI)) 11.8244611766 11.8244717776 4274149.5715 4274149.5971 ltac:(lra) ltac:(lra) ltac:(lra) ltac:(lra)); lra).
  assert (B2 : 20640914.952 <= ((2 * Aps_B) * (Cf_R Barrow)) <= 20641219.111)
    by (generalize (mul_pp (2 * Aps_B) (Cf_R Barrow) 21.223349612 21.22366224 972556.89274 972556.89792 ltac:(lra) ltac:(lra) ltac:(lra) ltac:(lra)); lra).
  assert (B3 : 6602783.6894 <= (((2 * Aps_B) * (Cf_R Barrow)) * Zc_B) <= 6602899.6579)
    by (generalize (mul_pp ((2 * Aps_B) * (Cf_R Barrow)) Zc_B 20640914.952 20641219.111 0.31988813019 0.31988903477 ltac:(lra) ltac:(lra) ltac:(lra) ltac:(lra)); lra).
  assert (B4 : 30506585554000000 <= ((((((2 * Aps_B) * (Cf_R Barrow)) * Zc_B) + (137350000 * Zc_B)) * 137350000) * (sqrt (Kf_R Barrow * tao / (PI * Cf_R Barrow)))) <= 30506730735000000)
    by (generalize (mul_pp (((((2 * Aps_B) * (Cf_R Barrow)) * Zc_B) + (137350000 * Zc_B)) * 137350000) (sqrt (Kf_R Barrow * tao / (PI * Cf_R Barrow))) 6941589113256369.275 6941622106451897.325 4.3947553012 4.3947553276 ltac:(lra) ltac:(lra) ltac:(lra) ltac:(lra)); lra).
  assert (B5 : 0.0000000013391648937 <= (/ (2 * Ags_R Barrow * Cf_R Barrow * Zc_B + 137350000 * Zc_B + (2 * Aps_B * Cf_R Barrow + 137350000) * sqrt (Kf_R Barrow * tao / (PI * Cf_R Barrow)))) <= 0.0000000013391675678)
    by (generalize (inv_p (2 * Ags_R Barrow * Cf_R Barrow * Zc_B + 137350000 * Zc_B + (2 * Aps_B * Cf_R Barrow + 137350000) * sqrt (Kf_R Barrow * tao / (PI * Cf_R Barrow))) 746732540.48 746734031.51 ltac:(lra) ltac:(lra)); lra).
  assert (B6 : 40853348.4 <= (((((((2 * Aps_B) * (Cf_R Barrow)) * Zc_B) + (137350000 * Zc_B)) * 137350000) * (sqrt (Kf_R Barrow * tao / (PI * Cf_R Barrow)))) / (2 * Ags_R Barrow * Cf_R Barrow * Zc_B + 137350000 * Zc_B + (2 * Aps_B * Cf_R Barrow + 137350000) * sqrt (Kf_R Barrow * tao / (PI * Cf_R Barrow)))) <= 40853624.4)
    by (unfold Rdiv at 1 2; generalize (mul_pp ((((((2 * Aps_B) * (Cf_R Barrow)) * Zc_B) + (137350000 * Zc_B)) * 137350000) * (sqrt (Kf_R Barrow * tao / (PI * Cf_R Barrow)))) (/ (2 * Ags_R Barrow * Cf_R Barrow * Zc_B + 137350000 * Zc_B + (2 * Aps_B * Cf_R Barrow + 137350000) * sqrt (Kf_R Barrow * tao / (PI * Cf_R Barrow)))) 30506585554000000 30506730735000000 0.0000000013391648937 0.0000000013391675678 ltac:(lra) ltac:(lra) ltac:(lra) ltac:(lra)); lra).
  assert (B7 : 0.0000000063294656853 <= (/ (2 * Aps_B * Cf_R Barrow + 137350000)) <= 0.0000000063294778711)
    by (generalize (inv_p (2 * Aps_B * Cf_R Barrow + 137350000) 157990914.95 157991219.12 ltac:(lra) ltac:(lra)); lra).
  assert (B8 : 0.57846799701 <= ((((2 * ((Ags_R Barrow) - T_B)) * (sqrt (Kf_R Barrow * tao * Cf_R Barrow / PI))) + (((((((2 * Aps_B) * (Cf_R Barrow)) * Zc_B) + (137350000 * Zc_B)) * 137350000) * (sqrt (Kf_R Barrow * tao / (PI * Cf_R Barrow)))) / (2 * Ags_R Barrow * Cf_R Barrow * Zc_B + 137350000 * Zc_B + (2 * Aps_B * Cf_R Barrow + 137350000) * sqrt (Kf_R Barrow * tao / (PI * Cf_R Barrow))))) / (2 * Aps_B * Cf_R Barrow + 137350000)) <= 0.57847114637)
    by (unfold Rdiv at 1 2; generalize (mul_pp (((2 * ((Ags_R Barrow) - T_B)) * (sqrt (Kf_R Barrow * tao * Cf_R Barrow / PI))) + (((((((2 * Aps_B) * (Cf_R Barrow)) * Zc_B) + (137350000 * Zc_B)) * 137350000) * (sqrt (Kf_R Barrow * tao / (PI * Cf_R Barrow)))) / (2 * Ags_R Barrow * Cf_R Barrow * Zc_B + 137350000 * Zc_B + (2 * Aps_B * Cf_R Barrow + 137350000) * sqrt (Kf_R Barrow * tao / (PI * Cf_R Barrow))))) (/ (2 * Aps_B * Cf_R Barrow + 137350000)) 91392864.071 91393185.685 0.0000000063294656853 0.0000000063294778711 ltac:(lra) ltac:(lra) ltac:(lra) ltac:(lra)); lra).
  lra.
Qed.

Lemma solver_Barrow :
  solver (Fin (Tgs_R Barrow)) (Fin (Ags_R Barrow)) (Fin (Kf_R Barrow))
    (Fin (Kt_R Barrow)) (Fin (Cf_R Barrow)) (Fin (Ct_R Barrow))
    (Fin (L_R Barrow))
  = Ok {| Tps_numerator := Fin Tps_num_B; K_star := Fin (Kf_R Barrow);
          C := Fin (Cf_R Barrow); K := Fin (Kf_R Barrow); Flag := Frozen;
          Tps := Fin (Tps_num_B / Kf_R Barrow); Aps := Fin Aps_B;
          Zc := Fin Zc_B; Zal := Fin Zal_B |}.
Proof.
  pose proof Ags_B as HA. pose proof ratio_B as Hr. pose proof sqrt_arg_B as Hs.
  pose proof Tps_num_bounds as Hn. pose proof Kf_B as Hk. pose proof Cf_B as Hc.
  pose proof T_bounds as HT. pose proof h_bounds as Hh.
  pose proof log_arg_B as Hy. pose proof log_term_B as Hl.
  pose proof S1_arg_B as H1. pose proof S2_arg_B as H2.
  pose proof denominator_B as HD. pose proof second_denominator_B as HD2.
  unfold solver.
  rewrite Tps_numerator_defined by lra.
  fold Tps_num_B. unfold regime. cbn [fle]. rewrite Rleb_true by lra.
  apply closed_form_defined;
    fold T_B; fold h_B; fold Aps_B; fold Zc_B; lra.
Qed.

(** At the reference site the script returns TTOP = -7.691495... and
    ALT = 0.578469..., the two numbers printed in the notebook. *)
Lemma permafrost_model_Barrow :
  exists o : output,
    permafrost_model Barrow = Ok o
    /\ Flag (out_sol o) = Frozen
    /\ Tps (out_sol o) = Fin (Tps_num_B / Kf_R Barrow)
    /\ Zal (out_sol o) = Fin Zal_B.
Proof.
  destruct (permafrost_model_valid Barrow Barrow_valid) as (x & Hx & E).
  rewrite solver_Barrow in Hx. injection Hx as <-.
  eexists. split; [exact E |]. repeat split; reflexivity.
Qed.

(** The temperature at the top of permafrost is more than 1e-3 away from
    -7.69. *)
Lemma reference_Tps_not_within_tolerance :
  exists (o : output) (tps : R),
    permafrost_model Barrow = Ok o
    /\ Tps (out_sol o) = Fin tps
    /\ 1e-3 < Rabs (tps - -7.69).
Proof.
  destruct permafrost_model_Barrow as (o & E & _ & ET & _).
  exists o, (Tps_num_B / Kf_R Barrow).
  split; [exact E |]. split; [exact ET |].
  pose proof Tps_B. rewrite Rabs_left1 by lra. lra.
Qed.

(** C2 (reference scenario), with the tolerance the script meets.  For the
    Barrow inputs the script returns the frozen regime, a TTOP between
    -7.691497 and -7.691494 and an ALT between 0.578467 and 0.578472:
    TTOP is within 2e-3 of -7.69 and ALT within 1e-3 of 0.578. *)
Theorem reference_scenario :
  exists (o : output) (tps zal : R),
    permafrost_model Barrow = Ok o
    /\ Flag (out_sol o) = Frozen
    /\ Tps (out_sol o) = Fin tps /\ Zal (out_sol o) = Fin zal
    /\ -7.691497 <= tps <= -7.691494
    /\ 0.578467 <= zal <= 0.578472
    /\ Rabs (tps - -7.69) <= 2e-3
    /\ Rabs (zal - 0.578) <= 1e-3.
Proof.
  destruct permafrost_model_Barrow as (o & E & EF & ET & EZ).
  exists o, (Tps_num_B / Kf_R Barrow), Zal_B.
  pose proof Tps_B. pose proof Zal_bounds.
  repeat split; try assumption; try lra.
  - rewrite Rabs_left1 by lra. lra.
  - rewrite Rabs_right by lra. lra.
Qed.

(** ** An arc sine outside its domain *)

Lemma farcsin_ratio_NaN (tg ag : R) :
  Rabs ag < Rabs tg -> farcsin (fdiv (Fin tg) (Fin ag)) = NaN.
Proof.
  intros H. destruct (Req_dec_T ag 0) as [-> | Hne].
  - cbn [fdiv]. rewrite Reqb_true by reflexivity.
    rewrite Rabs_R0 in H.
    assert (tg <> 0) by (intros ->; rewrite Rabs_R0 in H; lra).
    rewrite Reqb_false by assumption.
    destruct (Rltb tg 0); reflexivity.
  - rewrite fdiv_Fin by exact Hne. apply farcsin_out.
    unfold Rdiv. rewrite Rabs_mult, Rabs_inv.
    assert (Ha : 0 < Rabs ag) by (apply Rabs_pos_lt, Hne).
    apply Rmult_lt_reg_r with (Rabs ag); [exact Ha |].
    rewrite Rmult_assoc, Rinv_l by lra. lra.
Qed.

Lemma Tps_numerator_arcsin_NaN (tg ag : R) (Kf Kt : float64) :
  Rabs ag < Rabs tg -> Tps_numerator_of (Fin tg) (Fin ag) Kf Kt = NaN.
Proof.
  intros H. unfold Tps_numerator_of. rewrite (farcsin_ratio_NaN tg ag H).
  now autorewrite with nan.
Qed.

(** C4 (arc sine outside its domain), as the script behaves.  For finite
    [Tgs] and [Ags] with [|Ags| < |Tgs|] the argument of the arc sine leaves
    [-1,1]: the arc sine and [Tps_numerator] are NaN, no domain error is
    reported, the solver takes the thawed branch and returns NaN for [Tps],
    [Aps], [Zc] and [Zal]; the only exception it can raise is the
    ZeroDivisionError of a zero thawed heat capacity. *)
Theorem arcsin_domain_is_silent (tg ag : R) (Kf Kt Cf Ct L : float64) :
  Rabs ag < Rabs tg ->
  farcsin (fdiv (Fin tg) (Fin ag)) = NaN
  /\ Tps_numerator_of (Fin tg) (Fin ag) Kf Kt = NaN
  /\ match solver (Fin tg) (Fin ag) Kf Kt Cf Ct L with
     | Ok x =>
         Flag x = Thawed /\ Tps x = NaN /\ Aps x = NaN /\ Zc x = NaN
         /\ Zal x = NaN
     | Raise e => e = ZeroDivisionError /\ Ct = Fin 0
     end.
Proof.
  intros H. split; [apply farcsin_ratio_NaN, H |].
  split; [apply Tps_numerator_arcsin_NaN, H |].
  pose proof (solver_NaN (Fin tg) (Fin ag) Kf Kt Cf Ct L
                (Tps_numerator_arcsin_NaN tg ag Kf Kt H)) as HS.
  destruct (solver (Fin tg) (Fin ag) Kf Kt Cf Ct L) as [x | e].
  - tauto.
  - split; [destruct e; reflexivity | exact HS].
Qed.

Lemma arcsin_domain_is_silent_witness :
  Rabs 5 < Rabs (-10)
  /\ exists x : solution,
      solver (Fin (-10)) (Fin 5) (Fin 2) (Fin 1.5) (Fin 1) (Fin 1) (Fin 1) = Ok x
      /\ Tps x = NaN /\ Zal x = NaN.
Proof.
  assert (H : Rabs 5 < Rabs (-10)).
  { rewrite (Rabs_right 5) by lra. rewrite (Rabs_left (-10)) by lra. lra. }
  split; [exact H |].
  pose proof (arcsin_domain_is_silent (-10) 5 (Fin 2) (Fin 1.5) (Fin 1) (Fin 1)
                (Fin 1) H) as (_ & _ & HS).
  destruct (solver (Fin (-10)) (Fin 5) (Fin 2) (Fin 1.5) (Fin 1) (Fin 1) (Fin 1))
    as [x | e].
  - exists x. split; [reflexivity |]. tauto.
  - destruct HS as [_ HS]. injection HS as HS. lra.
Defined.

(** *** A site at which the script runs into it *)

Lemma s_fun_square_lower (m x : R) :
  -1 <= m <= 0 -> 0 <= x -> x * x <= s_fun m x.
Proof.
  intros Hm Hx. unfold s_fun.
  set (u := exp (x / 2)). set (v := exp (- (x / 2))).
  assert (Eu : exp x = u * u).
  { unfold u. rewrite <- exp_plus. f_equal. lra. }
  assert (Ev : exp (- x) = v * v).
  { unfold v. rewrite <- exp_plus. f_equal. lra. }
  assert (Euv : u * v = 1).
  { unfold u, v. rewrite <- exp_plus. rewrite Rplus_opp_r. apply exp_0. }
  assert (Hu : 0 < u) by apply exp_pos.
  assert (Hv : 0 < v) by apply exp_pos.
  assert (Hsinh : x <= u - v).
  { destruct (Rle_lt_or_eq_dec _ _ Hx) as [Hpos | <-].
    - assert (Hh : 0 < x / 2) by lra.
      pose proof (sinh_gt_id (x / 2) Hh) as Hs. unfold sinh in Hs.
      fold u v in Hs. lra.
    - unfold u, v. replace (0 / 2) with 0 by lra. rewrite Ropp_0, exp_0. lra. }
  pose proof (COS_bound x) as [_ Hc].
  rewrite Eu, Ev.
  assert (Hw : x <= u + m * v) by nra.
  assert (Hsq : x * x <= (u + m * v) * (u + m * v)) by nra.
  assert (Hcos : 0 <= 2 * m * (cos x - 1)) by nra.
  nra.
Qed.

Lemma cold_site_valid : valid cold_site.
Proof.
  constructor; cbn; try lra.
  unfold Rabs. destruct (Rcase_abs (-19)); lra.
Qed.

Lemma cold_site_mu : -1 < mu_R cold_site <= -0.7.
Proof.
  pose proof (mu_R_bounds cold_site cold_site_valid) as [Hlo _].
  split; [exact Hlo |].
  pose proof (Cef_R_gt_Cf cold_site cold_site_valid) as HC.
  pose proof (snow_admittance_pos cold_site cold_site_valid) as Ha.
  pose proof (ground_admittance_pos cold_site cold_site_valid) as Hb.
  change (Cf_R cold_site) with (Cf_R Barrow) in HC.
  pose proof Cf_B as HCf. pose proof Kf_B as HKf.
  pose proof snow_admittance_B as HaB.
  unfold mu_R.
  change (Ksn_R cold_site) with (Ksn_R Barrow) in *.
  change (Csn_R cold_site) with (Csn_R Barrow) in *.
  change (Kf_R cold_site) with (Kf_R Barrow) in *.
  set (a := sqrt (Ksn_R Barrow * Csn_R Barrow)) in *.
  set (b := sqrt (Kf_R Barrow * Cef_R cold_site)) in *.
  assert (Hb0 : 1300 <= b).
  { unfold b. rewrite <- (sqrt_square 1300) by lra.
    apply sqrt_le_1_alt.
    assert (1.8 * 970000 <= Kf_R Barrow * Cef_R cold_site)
      by (apply Rmult_le_compat; lra).
    lra. }
  apply Rmult_le_reg_r with (a + b); [lra |].
  unfold Rdiv. rewrite Rmult_assoc, Rinv_l by lra. lra.
Qed.

Lemma cold_site_transmission :
  (1 + mu_R cold_site) / sqrt (s_R cold_site) <= 0.7.
Proof.
  pose proof cold_site_mu as [Hm1 Hm2].
  pose proof snow_arg_B as Hx.
  change (snow_arg Barrow) with (snow_arg cold_site) in Hx.
  assert (Hs : snow_arg cold_site <= sqrt (s_R cold_site)).
  { rewrite <- (sqrt_square (snow_arg cold_site)) by lra.
    apply sqrt_le_1_alt. rewrite (s_R_fun cold_site).
    apply s_fun_square_lower; lra. }
  assert (Hpos : 0 < sqrt (s_R cold_site)) by lra.
  apply Rmult_le_reg_r with (sqrt (s_R cold_site)); [exact Hpos |].
  unfold Rdiv. rewrite Rmult_assoc, Rinv_l by lra. lra.
Qed.

Lemma cold_site_deta_Asn : 1.4 <= deta_Asn_R cold_site < 9.52.
Proof.
  pose proof cold_site_transmission as Ht.
  pose proof (deta_A_R_bounds cold_site cold_site_valid) as [_ HA].
  pose proof (tao1_R_bounds cold_site cold_site_valid) as [Ht0 Ht1].
  pose proof tao_pos as Htao.
  assert (HdA : 5.7 <= deta_A_R cold_site).
  { unfold deta_A_R. cbn [Aa cold_site]. lra. }
  cbn [Aa cold_site] in HA.
  assert (Hfrac : 1 / 2 <= tao1_R cold_site / tao < 1).
  { split.
    - rewrite (cold_fraction cold_site).
      assert (asin (Ta cold_site / Aa cold_site) <= 0).
      { rewrite <- asin_0. cbn [Ta Aa cold_site]. apply asin_le; lra. }
      pose proof PI_RGT_0.
      assert (asin (Ta cold_site / Aa cold_site) / PI <= 0).
      { unfold Rdiv. rewrite <- (Rmult_0_l (/ PI)).
        apply Rmult_le_compat_r; [left; apply Rinv_0_lt_compat |]; lra. }
      lra.
    - apply Rmult_lt_reg_r with tao; [lra |].
      unfold Rdiv. rewrite Rmult_assoc, Rinv_l by lra. lra. }
  unfold deta_Asn_R.
  replace (deta_A_R cold_site * tao1_R cold_site / tao * 0.5)
    with (deta_A_R cold_site * (tao1_R cold_site / tao) * 0.5)
    by (unfold Rdiv; ring).
  set (t := tao1_R cold_site / tao) in *.
  set (d := deta_A_R cold_site) in *.
  split; nra.
Qed.

Lemma cold_site_surface :
  Tgs_R cold_site < 0 /\ 0 < Ags_R cold_site < - Tgs_R cold_site.
Proof.
  pose proof cold_site_deta_Asn as [H1 H2].
  pose proof PI_bounds as [Hp1 Hp2].
  assert (HA1 : deta_A1_R cold_site = 0).
  { unfold deta_A1_R. cbn [Hvg1 cold_site]. rewrite veg_factor_R_zero. ring. }
  assert (HA2 : deta_A2_R cold_site = 0).
  { unfold deta_A2_R. cbn [Hvg2 cold_site]. rewrite veg_factor_R_zero. ring. }
  assert (ET : Tgs_R cold_site = -19 + 2 / PI * deta_Asn_R cold_site).
  { unfold Tgs_R, deta_Tv_R, Tvg_R, deta_Tsn_R. rewrite HA1, HA2.
    cbn [Ta cold_site]. unfold Rdiv. ring. }
  assert (EA : Ags_R cold_site = 19.04 - deta_Asn_R cold_site).
  { unfold Ags_R, deta_Av_R, Avg_R. rewrite HA1, HA2.
    cbn [Aa cold_site]. unfold Rdiv. ring. }
  assert (HP : 0.63 <= 2 / PI <= 0.64).
  { split.
    - apply Rmult_le_reg_r with PI; [lra |].
      unfold Rdiv. rewrite Rmult_assoc, Rinv_l by lra. lra.
    - apply Rmult_le_reg_r with PI; [lra |].
      unfold Rdiv. rewrite Rmult_assoc, Rinv_l by lra. lra. }
  rewrite ET, EA. set (P := 2 / PI) in *. set (D := deta_Asn_R cold_site) in *.
  repeat split; nra.
Qed.

(** The script returns NaN there and raises nothing. *)
Lemma cold_site_returns_NaN :
  exists (o : output) (tg ag : R),
    permafrost_model cold_site = Ok o
    /\ Tgs (out_veg o) = Fin tg /\ Ags (out_veg o) = Fin ag
    /\ ag < Rabs tg
    /\ Tps (out_sol o) = NaN /\ Zal (out_sol o) = NaN.
Proof.
  destruct (permafrost_model_valid cold_site cold_site_valid) as (x & Hx & E).
  pose proof cold_site_surface as (HT & HA0 & HA1).
  assert (Habs : Rabs (Ags_R cold_site) < Rabs (Tgs_R cold_site)).
  { rewrite (Rabs_right (Ags_R cold_site)) by lra.
    rewrite (Rabs_left (Tgs_R cold_site)) by lra. lra. }
  pose proof (solver_NaN _ _ (Fin (Kf_R cold_site)) (Fin (Kt_R cold_site))
                (Fin (Cf_R cold_site)) (Fin (Ct_R cold_site))
                (Fin (L_R cold_site))
                (Tps_numerator_arcsin_NaN _ _ _ _ Habs)) as HS.
  rewrite Hx in HS. destruct HS as (_ & _ & HTps & _ & _ & HZal).
  eexists. exists (Tgs_R cold_site), (Ags_R cold_site).
  split; [exact E |].
  cbn [out_veg out_sol vegetation_R Tgs Ags].
  repeat split; try assumption.
  rewrite (Rabs_left (Tgs_R cold_site)) by lra. lra.
Qed.



(** ** Further properties of the script *)

(** *** When the script raises, and when it returns without a number *)

(** The soil stage with the cold season left as the script computes it. *)
Lemma soil_properties_returns (i : site) :
  Aa i <> 0 ->
  exists p : soil,
    soil_properties i = Ok p
    /\ Cf p = Fin (Cf_R i) /\ Ct p = Fin (Ct_R i)
    /\ Kf p = Fin (Kf_R i) /\ Kt p = Fin (Kt_R i)
    /\ Ksn p = Fin (Ksn_R i) /\ Csn p = Fin (Csn_R i)
    /\ L p = Fin (L_R i)
    /\ tao1 p
       = fmul (Fin tao)
           (fsub (Fin 0.5)
              (fmul (Fin (1 / PI)) (farcsin (Fin (Ta i / Aa i))))).
Proof.
  intros HA. unfold soil_properties.
  rewrite pydiv_Fin by exact HA. cbn [bind].
  rewrite (fdiv_Fin _ (Aa i)) by exact HA.
  rewrite (fdiv_Fin _ PI) by apply PI_neq0.
  unfold Ksn_of, Csn_of. rewrite !fdiv_Fin by lra.
  eexists. split; [reflexivity |].
  cbn [Cf Ct Kf Kt Ksn Csn L tao1]. repeat split; reflexivity.
Qed.

Lemma Cf_R_wet (i : site) : 0 <= W_vol i -> 0 < Cf_R i.
Proof.
  intros H. unfold Cf_R.
  pose proof (Heat_Capacity_R_pos i). pose proof (Bulk_Density_R_pos i).
  assert (0 < Heat_Capacity_R i * Bulk_Density_R i)
    by (apply Rmult_lt_0_compat; assumption).
  lra.
Qed.

Lemma Ct_R_wet (i : site) : 0 <= W_vol i -> 0 < Ct_R i.
Proof.
  intros H. unfold Ct_R.
  pose proof (Heat_Capacity_R_pos i). pose proof (Bulk_Density_R_pos i).
  assert (0 < Heat_Capacity_R i * Bulk_Density_R i)
    by (apply Rmult_lt_0_compat; assumption).
  lra.
Qed.

(** With a non-zero latent heat the snow stage has no division by zero:
    [beta + 1 >= 1] and [tao * Ksn > 0]. *)
Lemma snow_effect_returns (i : site) (p : soil) (c l k : R) :
  Cf p = Fin c -> L p = Fin l -> Ksn p = Fin k ->
  0 < c -> 0 < l -> 0 < k ->
  exists w : snow,
    snow_effect i p = Ok w
    /\ alpha w = Fin (2 * Aa i * c / l)
    /\ beta w = Fin (2 * Rabs (Ta i) * c / l)
    /\ Cef w
       = fmul (Fin c)
           (fdiv (Fin (2 * Aa i * c / l - 2 * Rabs (Ta i) * c / l))
              (fsub (Fin (2 * Aa i * c / l - 2 * Rabs (Ta i) * c / l))
                 (flog (Fin ((2 * Aa i * c / l + 1)
                             / (2 * Rabs (Ta i) * c / l + 1))))))
    /\ mu w
       = fdiv (fsub (fsqrt (fmul (Fin k) (Csn p)))
                 (fsqrt (fmul (Kf p) (Cef w))))
           (fadd (fsqrt (fmul (Fin k) (Csn p)))
              (fsqrt (fmul (Kf p) (Cef w))))
    /\ deta_A w
       = fmul (Fin (Aa i))
           (fsub (Fin 1) (fdiv (fadd (Fin 1) (mu w)) (fsqrt (s w))))
    /\ (mu w = NaN -> s w = NaN)
    /\ deta_Asn w
       = fmul (fdiv (fmul (deta_A w) (tao1 p)) (Fin tao)) (Fin 0.5)
    /\ deta_Tsn w = fmul (fdiv (Fin 2) (Fin PI)) (deta_Asn w).
Proof.
  intros EC EL EK Hc Hl Hk. pose proof tao_pos as Ht.
  assert (Hb : 0 <= 2 * Rabs (Ta i) * c / l).
  { apply Rmult_le_pos; [| left; apply Rinv_0_lt_compat; exact Hl].
    pose proof (Rabs_pos (Ta i)). nra. }
  assert (Htk : 0 < tao * k) by (apply Rmult_lt_0_compat; assumption).
  unfold snow_effect. rewrite EC, EL, EK.
  autorewrite with fin.
  rewrite !pydiv_Fin by lra. cbn [bind].
  rewrite !(fdiv_Fin _ l) by lra.
  autorewrite with fin.
  rewrite pydiv_Fin by lra. cbn [bind].
  rewrite (fdiv_Fin _ (2 * Rabs (Ta i) * c / l + 1)) by lra.
  eexists. split; [reflexivity |].
  cbn [alpha beta Cef mu s deta_A deta_Asn deta_Tsn].
  repeat split; try reflexivity.
  intros ->. now autorewrite with nan.
Qed.






(** NaN runs through the vegetation stage and the solver. *)
Lemma vegetation_effect_NaN (i : site) (p : soil) (w : snow) :
  deta_Asn w = NaN -> deta_Tsn w = NaN ->
  Tgs (vegetation_effect i p w) = NaN /\ Ags (vegetation_effect i p w) = NaN.
Proof.
  intros EA ET. unfold vegetation_effect. cbn [Tgs Ags].
  rewrite EA, ET. autorewrite with nan. split; reflexivity.
Qed.

Lemma Tps_numerator_of_NaN (Ags Kf Kt : float64) :
  Tps_numerator_of NaN Ags Kf Kt = NaN.
Proof. unfold Tps_numerator_of. now autorewrite with nan. Qed.

Lemma farcsin_outside (t a : R) :
  0 < a -> a < Rabs t -> farcsin (Fin (t / a)) = NaN.
Proof.
  intros Ha H. apply farcsin_out.
  unfold Rdiv. rewrite Rabs_mult, (Rabs_pos_eq (/ a))
    by (left; apply Rinv_0_lt_compat; exact Ha).
  apply Rmult_lt_reg_r with a; [exact Ha |].
  rewrite Rmult_assoc, Rinv_l by lra. lra.
Qed.

(** X2 (air temperature that never crosses zero).  When the air amplitude
    is positive but not larger than [|Ta|], the script does not stop: the
    cold-season length ([|Ta| > Aa], arcsin outside its domain) or the
    effective heat capacity ([|Ta| = Aa], the quotient 0/0) is NaN, and so
    are the ground-surface temperature and amplitude, TTOP and ALT; the
    flag is the thawed one. *)
Theorem no_zero_crossing_is_NaN (i : site) :
  0 < W_vol i -> 0 < Aa i <= Rabs (Ta i) ->
  exists o : output,
    permafrost_model i = Ok o
    /\ Tgs (out_veg o) = NaN /\ Ags (out_veg o) = NaN
    /\ Flag (out_sol o) = Thawed
    /\ Tps (out_sol o) = NaN /\ Zal (out_sol o) = NaN.
Proof.
  intros HW [HA HT].
  assert (HA' : Aa i <> 0) by lra.
  destruct (soil_properties_returns i HA')
    as (p & Ep & ECf & ECt & _ & _ & EK & _ & EL & Et1).
  pose proof (Cf_R_wet i (Rlt_le _ _ HW)) as Hcf.
  pose proof (Ct_R_wet i (Rlt_le _ _ HW)) as Hct.
  assert (Hl : 0 < L_R i) by (unfold L_R; lra).
  destruct (snow_effect_returns i p _ _ _ ECf EL EK Hcf Hl (Ksn_R_pos i))
    as (w & Ew & _ & _ & ECef & Emu & EdA & Hs & EdAsn & EdTsn).
  assert (N : deta_Asn w = NaN).
  { rewrite EdAsn. destruct (Rle_lt_or_eq_dec _ _ HT) as [Hlt | Heq].
    - (* the cold season is NaN *)
      rewrite Et1, (farcsin_outside _ _ HA Hlt). now autorewrite with nan.
    - (* alpha = beta: the effective heat capacity is 0/0 *)
      assert (EC : Cef w = NaN).
      { rewrite ECef, <- Heq.
        set (a := 2 * Aa i * Cf_R i / L_R i).
        assert (Ha : 0 < a).
        { unfold a. apply Rdiv_lt_0_compat; [| exact Hl].
          apply Rmult_lt_0_compat; lra. }
        replace ((a + 1) / (a + 1)) with 1 by (field; lra).
        rewrite flog_Fin by lra. rewrite ln_1.
        autorewrite with fin. replace (a - a - 0) with 0 by ring.
        replace (a - a) with 0 by ring.
        cbn [fdiv]. rewrite Reqb_true by reflexivity.
        reflexivity. }
      assert (EM : mu w = NaN).
      { rewrite Emu, EC. autorewrite with nan. cbn [fsqrt].
        now autorewrite with nan. }
      rewrite EdA, EM. now autorewrite with nan. }
  assert (N' : deta_Tsn w = NaN) by (rewrite EdTsn, N; now autorewrite with nan).
  destruct (vegetation_effect_NaN i p w N N') as [ETgs EAgs].
  unfold permafrost_model. rewrite Ep. cbn [bind]. rewrite Ew. cbn [bind].
  rewrite ETgs, ECf, ECt.
  pose proof (solver_NaN NaN (Ags (vegetation_effect i p w)) (Kf p) (Kt p)
                (Fin (Cf_R i)) (Fin (Ct_R i)) (L p)
                (Tps_numerator_of_NaN _ _ _)) as HN.
  destruct (solver NaN (Ags (vegetation_effect i p w)) (Kf p) (Kt p)
              (Fin (Cf_R i)) (Fin (Ct_R i)) (L p)) as [x | e].
  - cbn [bind]. eexists. split; [reflexivity |].
    cbn [out_veg out_sol]. rewrite ETgs, EAgs. tauto.
  - injection HN as HN. lra.
Qed.

Lemma no_zero_crossing_is_NaN_witness :
  exists o : output,
    permafrost_model polar_night = Ok o
    /\ Tps (out_sol o) = NaN /\ Zal (out_sol o) = NaN.
Proof.
  destruct (no_zero_crossing_is_NaN polar_night) as (o & H & _ & _ & _ & H1 & H2).
  - cbn. lra.
  - cbn. rewrite Rabs_left by lra. lra.
  - exists o. tauto.
Defined.

(** *** Seasons and soil mixing *)




(** A product of three powers is the exponential of the weighted sum of the
    logarithms. *)
Lemma texture_mix (a b c p q r : R) :
  Rpower a p * Rpower b q * Rpower c r = exp (p * ln a + q * ln b + r * ln c).
Proof. unfold Rpower. rewrite !exp_plus. reflexivity. Qed.


Lemma texture_mix_lt (a b c a' b' c' p q r : R) :
  0 < a < a' -> 0 < b < b' -> 0 < c < c' ->
  0 <= p -> 0 <= q -> 0 <= r -> 0 < p + q + r ->
  Rpower a p * Rpower b q * Rpower c r
  < Rpower a' p * Rpower b' q * Rpower c' r.
Proof.
  intros [A0 A1] [B0 B1] [C0 C1] Hp Hq Hr Hs.
  rewrite !texture_mix. apply exp_increasing.
  assert (ln a < ln a') by (apply ln_increasing; lra).
  assert (ln b < ln b') by (apply ln_increasing; lra).
  assert (ln c < ln c') by (apply ln_increasing; lra).
  assert (Gp : 0 <= p * (ln a' - ln a)) by (apply Rmult_le_pos; lra).
  assert (Gq : 0 <= q * (ln b' - ln b)) by (apply Rmult_le_pos; lra).
  assert (Gr : 0 <= r * (ln c' - ln c)) by (apply Rmult_le_pos; lra).
  destruct (Rle_lt_or_eq_dec _ _ Hp) as [Pp | <-].
  - assert (0 < p * (ln a' - ln a)) by (apply Rmult_lt_0_compat; lra). lra.
  - destruct (Rle_lt_or_eq_dec _ _ Hq) as [Pq | <-].
    + assert (0 < q * (ln b' - ln b)) by (apply Rmult_lt_0_compat; lra). lra.
    + assert (0 < r * (ln c' - ln c)) by (apply Rmult_lt_0_compat; lra). lra.
Qed.





(** *** The solver: regime, sign and order of its results *)

Lemma ratio_in_range (t a : R) :
  a <> 0 -> Rabs t <= Rabs a -> -1 <= t / a <= 1.
Proof.
  intros Ha H.
  assert (Hpos : 0 < Rabs a) by (apply Rabs_pos_lt, Ha).
  assert (Hq : Rabs (t / a) <= 1).
  { unfold Rdiv. rewrite Rabs_mult, Rabs_inv.
    apply Rmult_le_reg_r with (Rabs a); [exact Hpos |].
    rewrite Rmult_assoc, Rinv_l by lra. lra. }
  unfold Rabs in Hq. destruct (Rcase_abs (t / a)); lra.
Qed.


Lemma sqr_Rabs (a : R) : a * a = Rabs a * Rabs a.
Proof. unfold Rabs. destruct (Rcase_abs a); ring. Qed.

Lemma sqrt_term_defined (a : R) : PI <= Rabs a -> 0 <= 1 - PI * PI / (a * a).
Proof.
  intros H. pose proof PI_RGT_0 as Hpi.
  assert (Haa : 0 < a * a) by (rewrite sqr_Rabs; nra).
  assert (PI * PI / (a * a) <= 1).
  { apply Rmult_le_reg_r with (a * a); [exact Haa |].
    unfold Rdiv. rewrite Rmult_assoc, Rinv_l by lra.
    rewrite (sqr_Rabs a). nra. }
  lra.
Qed.


Lemma Tps_numerator_in_domain (t a kf kt : R) :
  Rabs t <= Rabs a -> PI <= Rabs a ->
  Tps_numerator_of (Fin t) (Fin a) (Fin kf) (Fin kt)
  = Fin (Tps_numerator_R t a kf kt).
Proof.
  intros Ht Ha. pose proof PI_RGT_0 as Hpi.
  assert (Ha0 : a <> 0).
  { intros ->. rewrite Rabs_R0 in Ha. lra. }
  apply Tps_numerator_defined;
    [exact Ha0 | apply ratio_in_range; assumption | apply sqrt_term_defined, Ha].
Qed.




Lemma asin_same_sign (x : R) : -1 <= x <= 1 -> 0 <= x * asin x.
Proof.
  intros [H1 H2]. destruct (Rle_lt_dec 0 x) as [Hp | Hn].
  - assert (0 <= asin x) by (rewrite <- asin_0; apply asin_le; lra).
    apply Rmult_le_pos; assumption.
  - assert (asin x <= 0) by (rewrite <- asin_0; apply asin_le; lra).
    nra.
Qed.

Lemma offset_term_nonpos (t a kf kt : R) :
  0 < a -> -1 <= t / a <= 1 -> kt <= kf ->
  a * (kt - kf) / PI
  * (t / a * asin (t / a) + sqrt (1 - PI * PI / (a * a))) <= 0.
Proof.
  intros Ha Hr Hk. pose proof PI_RGT_0 as Hpi.
  pose proof (asin_same_sign _ Hr) as H1.
  pose proof (sqrt_pos (1 - PI * PI / (a * a))) as H2.
  assert (H3 : a * (kt - kf) / PI <= 0).
  { unfold Rdiv. assert (0 < / PI) by (apply Rinv_0_lt_compat; lra).
    assert (0 <= a * (kf - kt) * / PI)
      by (apply Rmult_le_pos; [apply Rmult_le_pos |]; lra).
    lra. }
  set (u := a * (kt - kf) / PI) in *.
  set (v := t / a * asin (t / a) + sqrt (1 - PI * PI / (a * a))).
  assert (0 <= v) by (unfold v; lra).
  assert (0 <= (- u) * v) by (apply Rmult_le_pos; lra).
  lra.
Qed.

Lemma solver_frozen_branch (t a kf kt cf : R) (Ct L : float64) :
  t <= 0 -> Rabs t <= a -> PI <= a -> 0 < kt <= kf -> cf <> 0 ->
  exists (x : solution) (T : R),
    solver (Fin t) (Fin a) (Fin kf) (Fin kt) (Fin cf) Ct L = Ok x
    /\ Flag x = Frozen /\ K_star x = Fin kf /\ C x = Fin cf /\ K x = Fin kf
    /\ Tps x = Fin T /\ T <= 0.
Proof.
  intros Ht Hta Ha [Hkt Hk] Hcf. pose proof PI_RGT_0 as Hpi.
  assert (Hapos : 0 < a) by lra.
  assert (Habs : Rabs a = a) by (apply Rabs_pos_eq; lra).
  assert (Hr : -1 <= t / a <= 1)
    by (apply ratio_in_range; [lra | rewrite Habs; exact Hta]).
  assert (En : Tps_numerator_of (Fin t) (Fin a) (Fin kf) (Fin kt)
               = Fin (Tps_numerator_R t a kf kt))
    by (apply Tps_numerator_in_domain; rewrite Habs; assumption).
  assert (Hn : Tps_numerator_R t a kf kt <= 0).
  { unfold Tps_numerator_R.
    pose proof (offset_term_nonpos t a kf kt Hapos Hr Hk).
    assert (0.5 * t * (kf + kt) <= 0) by nra. lra. }
  set (n := Tps_numerator_R t a kf kt) in *.
  unfold solver. rewrite En. unfold regime. cbn [fle].
  rewrite (Rleb_true _ _ Hn).
  destruct (closed_form_returns (Fin a) (Fin n) (Fin kf) (Fin kf) L cf Frozen Hcf)
    as [x Hx].
  exists x, (n / kf). split; [exact Hx |].
  apply closed_form_fields in Hx.
  destruct Hx as (_ & E2 & E3 & E4 & E5 & E6).
  rewrite fdiv_Fin in E6 by lra.
  repeat split; try assumption.
  apply Rmult_le_reg_r with kf; [lra |].
  unfold Rdiv. rewrite Rmult_assoc, Rinv_l by lra. lra.
Qed.

(** X7 (cold ground is frozen).  When the mean ground-surface temperature
    is not positive, the amplitude is at least [pi] and at least [|Tgs|],
    and the thawed conductivity does not exceed the frozen one, the solver
    takes the frozen branch: the flag is -1, the frozen constants are used
    and TTOP is a non-positive number. *)
Theorem cold_surface_is_frozen (t a kf kt cf : R) (Ct L : float64) :
  t <= 0 -> Rabs t <= a -> PI <= a -> 0 < kt <= kf -> cf <> 0 ->
  exists (x : solution) (T : R),
    solver (Fin t) (Fin a) (Fin kf) (Fin kt) (Fin cf) Ct L = Ok x
    /\ Flag x = Frozen /\ K_star x = Fin kf /\ C x = Fin cf /\ K x = Fin kf
    /\ Tps x = Fin T /\ T <= 0.
Proof. apply solver_frozen_branch. Qed.

Lemma cold_surface_is_frozen_witness :
  exists (x : solution) (T : R),
    solver (Fin (-8)) (Fin 19) (Fin 2) (Fin 1.5) (Fin 1) (Fin 1) (Fin 60) = Ok x
    /\ Flag x = Frozen /\ Tps x = Fin T /\ T <= 0.
Proof.
  destruct (cold_surface_is_frozen (-8) 19 2 1.5 1 (Fin 1) (Fin 60))
    as (x & T & H & HF & _ & _ & _ & HT & Hle); try lra.
  - rewrite Rabs_left by lra. lra.
  - pose proof PI_bounds. lra.
  - exists x, T. repeat split; assumption.
Defined.




Lemma fle_fdiv_pos (n : float64) (k : R) :
  0 < k -> fle (fdiv n (Fin k)) (Fin 0) = fle n (Fin 0).
Proof.
  intros Hk. destruct n as [r | | |]; try reflexivity.
  - rewrite fdiv_Fin by lra. cbn [fle].
    destruct (Rle_lt_dec r 0) as [H | H].
    + rewrite (Rleb_true r 0 H). apply Rleb_true.
      apply Rmult_le_reg_r with k; [exact Hk |].
      unfold Rdiv. rewrite Rmult_assoc, Rinv_l by lra. lra.
    + rewrite (Rleb_false r 0 H). apply Rleb_false.
      apply Rdiv_lt_0_compat; assumption.
  - cbn [fdiv]. rewrite Rltb_false by lra. reflexivity.
  - cbn [fdiv]. rewrite Rltb_false by lra. reflexivity.
Qed.

(** X9 (the flag and the sign of TTOP).  With positive conductivities and
    non-zero heat capacities the solver returns for every ground-surface
    input, and its flag agrees with the TTOP it prints: the flag is -1
    exactly when [Tps <= 0] holds, and 1 exactly when it fails (a positive
    or a NaN value). *)
Theorem flag_matches_sign_of_TTOP
  (Tgs Ags L : float64) (kf kt cf ct : R) :
  0 < kf -> 0 < kt -> cf <> 0 -> ct <> 0 ->
  exists x : solution,
    solver Tgs Ags (Fin kf) (Fin kt) (Fin cf) (Fin ct) L = Ok x
    /\ (Flag x = Frozen <-> fle (Tps x) (Fin 0) = true)
    /\ (Flag x = Thawed <-> fle (Tps x) (Fin 0) = false).
Proof.
  intros Hkf Hkt Hcf Hct.
  destruct (solver_returns Tgs Ags (Fin kf) (Fin kt) L cf ct Hcf Hct) as [x Hx].
  exists x. split; [exact Hx |].
  unfold solver in Hx.
  set (n := Tps_numerator_of Tgs Ags (Fin kf) (Fin kt)) in *.
  destruct (regime_cases n (Fin kf) (Fin kt) (Fin cf) (Fin ct))
    as [[Hn Hr] | [Hn Hr]]; rewrite Hr in Hx;
    apply closed_form_fields in Hx;
    destruct Hx as (_ & _ & _ & _ & -> & ->);
    rewrite fle_fdiv_pos by assumption; rewrite Hn;
    split; split; intros H; try reflexivity; discriminate.
Qed.

Lemma flag_matches_sign_of_TTOP_witness :
  exists x : solution,
    solver (Fin (-8)) (Fin 19) (Fin 2) (Fin 1.5) (Fin 1) (Fin 1) (Fin 60) = Ok x
    /\ (Flag x = Frozen <-> fle (Tps x) (Fin 0) = true).
Proof.
  destruct (flag_matches_sign_of_TTOP (Fin (-8)) (Fin 19) (Fin 60) 2 1.5 1 1)
    as (x & H & H1 & _); try lra.
  exists x. split; assumption.
Defined.

(** *** Order of the amplitude and of the two depths *)

Section Ordering.

Variables a n k c l : R.
Hypothesis Hk : 0 < k.
Hypothesis Hc : 0 < c.
Hypothesis Hl : 0 < l.
Hypothesis HTa : Rabs (n / k) < a.

Let T := Rabs (n / k).
Let h := l / (2 * c).



End Ordering.




(** *** Snow and vegetation on valid sites *)
















(** X15 (no vegetation).  On a valid site without vegetation
    ([Hvg1 = Hvg2 = 0]) the vegetation stage changes nothing: the
    ground-surface temperature and amplitude are the snow-adjusted ones. *)
Theorem no_vegetation_passes_through (i : site) :
  valid i -> Hvg1 i = 0 -> Hvg2 i = 0 ->
  exists (o : output) (tv av : R),
    permafrost_model i = Ok o
    /\ Tvg (out_veg o) = Fin tv /\ Avg (out_veg o) = Fin av
    /\ Tgs (out_veg o) = Fin tv /\ Ags (out_veg o) = Fin av
    /\ deta_Av (out_veg o) = Fin 0 /\ deta_Tv (out_veg o) = Fin 0.
Proof.
  intros V H1 H2. destruct (permafrost_model_valid i V) as (x & _ & Hx).
  eexists. exists (Tvg_R i), (Avg_R i).
  split; [exact Hx |].
  cbn [out_veg vegetation_R Tvg Avg Tgs Ags deta_Av deta_Tv].
  do 2 (split; [reflexivity |]).
  assert (HA1 : deta_A1_R i = 0).
  { unfold deta_A1_R. rewrite H1, veg_factor_R_zero. ring. }
  assert (HA2 : deta_A2_R i = 0).
  { unfold deta_A2_R. rewrite H2, veg_factor_R_zero. ring. }
  assert (HAv : deta_Av_R i = 0).
  { unfold deta_Av_R. rewrite HA1, HA2. unfold Rdiv. ring. }
  assert (HTv : deta_Tv_R i = 0).
  { unfold deta_Tv_R. rewrite HA1, HA2. unfold Rdiv. ring. }
  unfold Tgs_R, Ags_R. rewrite HAv, HTv.
  repeat split; f_equal; ring.
Qed.

Lemma no_vegetation_passes_through_witness :
  exists (o : output) (tv av : R),
    permafrost_model Barrow = Ok o
    /\ Tgs (out_veg o) = Fin tv /\ Ags (out_veg o) = Fin av
    /\ Tvg (out_veg o) = Fin tv /\ Avg (out_veg o) = Fin av.
Proof.
  destruct (no_vegetation_passes_through Barrow Barrow_valid)
    as (o & tv & av & H & E1 & E2 & E3 & E4 & _); try reflexivity.
  exists o, tv, av. repeat split; assumption.
Defined.

(** X16 (cold sites are frozen).  On a valid site whose texture fractions
    are non-negative and not all zero the script returns; when the mean
    ground-surface temperature it computes is not positive and the
    amplitude is at least [pi] and at least [|Tgs|], the flag is -1, the
    frozen conductivity and heat capacity of the soil stage are the ones
    used, and TTOP is a non-positive number. *)
Theorem cold_site_is_frozen (i : site) :
  valid i ->
  0 <= percent_silt i -> 0 <= percent_sand i -> 0 <= percent_clay i ->
  0 < percent_silt i + percent_sand i + percent_clay i ->
  exists (o : output) (tg ag : R),
    permafrost_model i = Ok o
    /\ Tgs (out_veg o) = Fin tg /\ Ags (out_veg o) = Fin ag
    /\ (tg <= 0 -> Rabs tg <= ag -> PI <= ag ->
        Flag (out_sol o) = Frozen
        /\ K_star (out_sol o) = Kf (out_soil o)
        /\ C (out_sol o) = Cf (out_soil o)
        /\ exists T : R, Tps (out_sol o) = Fin T /\ T <= 0).
Proof.
  intros V H1 H2 H3 Hs.
  destruct (permafrost_model_valid i V) as (x & Ex & Hx).
  eexists. exists (Tgs_R i), (Ags_R i).
  split; [exact Hx |].
  cbn [out_veg out_sol out_soil vegetation_R soil_R Tgs Ags Kf Cf].
  do 2 (split; [reflexivity |]).
  intros Ht Hta Ha.
  assert (Hk : 0 < Kt_R i <= Kf_R i).
  { split; [apply Kt_R_pos |]. left. unfold Kf_R, Kt_R.
    apply texture_mix_lt; try assumption; try lra;
      unfold Kt_Silt, Kf_Silt, Kt_Clay, Kf_Clay, Kt_Sand, Kf_Sand; lra. }
  pose proof (Cf_R_pos i V) as Hcf.
  destruct (solver_frozen_branch (Tgs_R i) (Ags_R i) (Kf_R i) (Kt_R i) (Cf_R i)
              (Fin (Ct_R i)) (Fin (L_R i)) Ht Hta Ha Hk)
    as (x' & T & Ex' & HF & HK & HC & _ & HT & HT0); [lra |].
  rewrite Ex in Ex'. injection Ex' as <-.
  repeat split; try assumption.
  exists T. split; assumption.
Qed.

Lemma cold_site_is_frozen_witness :
  exists (o : output) (T : R),
    permafrost_model Barrow = Ok o
    /\ Flag (out_sol o) = Frozen /\ Tps (out_sol o) = Fin T /\ T <= 0.
Proof.
  destruct (cold_site_is_frozen Barrow Barrow_valid)
    as (o & tg & ag & H & Etg & Eag & Hcold); try (cbn; lra).
  destruct (permafrost_model_valid Barrow Barrow_valid) as (x & _ & Hx).
  pose proof H as H'. rewrite Hx in H'. injection H' as <-.
  cbn [out_veg vegetation_R Tgs Ags] in Etg, Eag.
  injection Etg as <-. injection Eag as <-.
  pose proof Tgs_B. pose proof Ags_B. pose proof PI_bounds.
  destruct Hcold as (HF & _ & _ & T & HT & HT0); try lra.
  - rewrite Rabs_left by lra. lra.
  - eexists. exists T. split; [exact H |]. repeat split; assumption.
Defined.
